(** * MoverAi: the generation client, the inventory store and the view
      state machine, embedded from the TypeScript sources.

    - [JS]: the fragment of the JavaScript runtime the sources rely on
      (strings as sequences of UTF-16 code units, [String.prototype.trim],
      regular-expression tests, a stable [Array.prototype.sort]).
    - [Types]: the records of [types.ts].
    - [GeminiService]: [ensureUnits] and
      [generateInventoryFromDescription].
    - [StorageService]: [getSavedInventories], [saveInventory] and
      [deleteInventoryById] over [localStorage].
    - [App]: the handlers of [App.tsx] as a step relation on the component
      state.
    - [SavedInventoriesPage], [ProcessingIndicator]: the list page and the
      progress messages.
    - [OnJSON]: [generateInventoryFromDescription] and
      [getSavedInventories] from the text they read, whatever value
      [JSON.parse] makes of it. *)

From Stdlib Require Import Ascii String DecimalString DecimalPos DecimalZ.
From stdpp Require Import gmap strings list sorting.

Local Open Scope N_scope.

(* ===================================================================== *)
(** ** The JavaScript fragment                                            *)
(* ===================================================================== *)

Module JS.

(** A JavaScript string is a sequence of UTF-16 code units. *)
Definition jsstring := list N.

(** An ASCII literal as a JavaScript string. *)
Fixpoint str (s : string) : jsstring :=
  match s with
  | EmptyString => []
  | String a rest => N_of_ascii a :: str rest
  end.

(** WhiteSpace and LineTerminator code units: what [trim] strips and what
    [\s] matches. *)
Definition is_space (c : N) : bool :=
  ((9 <=? c) && (c <=? 13))            (* TAB LF VT FF CR *)
  || (c =? 32) || (c =? 160)           (* SP, NBSP *)
  || (c =? 5760)                       (* U+1680 *)
  || ((8192 <=? c) && (c <=? 8202))    (* U+2000 .. U+200A *)
  || (c =? 8232) || (c =? 8233)        (* LS, PS *)
  || (c =? 8239) || (c =? 8287)        (* U+202F, U+205F *)
  || (c =? 12288) || (c =? 65279).     (* U+3000, U+FEFF *)

(** [\d] *)
Definition is_digit (c : N) : bool := (48 <=? c) && (c <=? 57).

Fixpoint trimStart (s : jsstring) : jsstring :=
  match s with
  | [] => []
  | c :: rest => if is_space c then trimStart rest else s
  end.

Definition trimEnd (s : jsstring) : jsstring := rev (trimStart (rev s)).

(** [String.prototype.trim] *)
Definition trim (s : jsstring) : jsstring := trimEnd (trimStart s).

(** *** Regular expressions *)

Inductive regex : Type :=
| Void                              (* matches nothing *)
| Eps                               (* the empty match *)
| Cls (p : N -> bool)               (* one code unit of a class *)
| Cat (r1 r2 : regex)
| Alt (r1 r2 : regex)
| Star (r : regex).

Definition Opt (r : regex) : regex := Alt r Eps.          (* r? *)
Definition Plus (r : regex) : regex := Cat r (Star r).    (* r+ *)
Definition anychar : regex := Cls (fun _ => true).

(** Case folding as the [i] flag sees it on the code units the patterns
    of this program mention (ASCII letters and U+00B3): a code unit
    outside ASCII never folds onto an ASCII one. *)
Definition fold_case (c : N) : N :=
  if (97 <=? c) && (c <=? 122) then c - 32 else c.

(** A literal code unit under the [i] flag. *)
Definition lit_i (c : N) : regex := Cls (fun x => fold_case x =? fold_case c).

(** A literal word under the [i] flag. *)
Fixpoint word_i (w : jsstring) : regex :=
  match w with
  | [] => Eps
  | c :: rest => Cat (lit_i c) (word_i rest)
  end.

Fixpoint nullable (r : regex) : bool :=
  match r with
  | Void => false
  | Eps => true
  | Cls _ => false
  | Cat r1 r2 => nullable r1 && nullable r2
  | Alt r1 r2 => nullable r1 || nullable r2
  | Star _ => true
  end.

(** What is left of [r] once the code unit [c] has been read. *)
Fixpoint deriv (c : N) (r : regex) : regex :=
  match r with
  | Void => Void
  | Eps => Void
  | Cls p => if p c then Eps else Void
  | Cat r1 r2 =>
      if nullable r1
      then Alt (Cat (deriv c r1) r2) (deriv c r2)
      else Cat (deriv c r1) r2
  | Alt r1 r2 => Alt (deriv c r1) (deriv c r2)
  | Star r1 => Cat (deriv c r1) (Star r1)
  end.

(** [r] matches the whole of [s]. *)
Fixpoint accepts (r : regex) (s : jsstring) : bool :=
  match s with
  | [] => nullable r
  | c :: rest => accepts (deriv c r) rest
  end.

(** A regular-expression literal: its pattern and whether it is anchored
    by [^] in front and by [$] behind. *)
Record RegExp : Type := mkRegExp {
  anchoredStart : bool;
  pattern : regex;
  anchoredEnd : bool
}.

(** [RegExp.prototype.test]: some substring of [s] (the whole of it, from
    the start or up to the end, where anchored) matches the pattern. *)
Definition test (re : RegExp) (s : jsstring) : bool :=
  accepts
    (Cat (if anchoredStart re then Eps else Star anychar)
         (Cat (pattern re)
              (if anchoredEnd re then Eps else Star anychar)))
    s.

(** *** Arrays *)

(** [Array.prototype.sort] with a comparison function. The sort is stable
    (ECMAScript 2019): an element goes in front of the first element it
    does not compare greater than. *)
Fixpoint sort_insert {A} (comparefn : A -> A -> Z) (x : A) (l : list A)
  : list A :=
  match l with
  | [] => [x]
  | y :: rest =>
      if (comparefn x y <=? 0)%Z then x :: l
      else y :: sort_insert comparefn x rest
  end.

Fixpoint sort {A} (comparefn : A -> A -> Z) (l : list A) : list A :=
  match l with
  | [] => []
  | x :: rest => sort_insert comparefn x (sort comparefn rest)
  end.

(** *** Numbers and exceptions *)

(** [String(n)] for an integer [n] (a clock reading in milliseconds). *)
Definition decimal (n : Z) : jsstring :=
  str (NilZero.string_of_int (Z.to_int n)).

(** What a [throw] or a rejected promise carries: an [Error] with its
    message, or any other value. *)
Inductive Thrown : Type :=
| ErrorObj (message : jsstring)
| OtherValue.

End JS.

Import JS.

(* ===================================================================== *)
(** ** types.ts                                                           *)
(* ===================================================================== *)

Module Types.

Record InventoryItem : Type := mkInventoryItem {
  name : jsstring;
  count : Z;
  description : jsstring;
  tags : list jsstring;
  estimatedSize : jsstring
}.

Record InventoryData : Type := mkInventoryData {
  inventory : list InventoryItem;
  transcript : jsstring;
  totalEstimatedSize : jsstring
}.

(** [SavedInventoryData extends InventoryData]: the inherited fields are
    kept together as [saved_data]. [createdAt] holds the instant, in
    milliseconds since the epoch, that the ISO-8601 string of the source
    denotes: [toISOString] writes it and [new Date(s).getTime()] reads it
    back. *)
Record SavedInventoryData : Type := mkSavedInventoryData {
  saved_data : InventoryData;
  id : jsstring;
  createdAt : Z
}.

End Types.

Import Types.

(* ===================================================================== *)
(** ** services/geminiService                                             *)
(* ===================================================================== *)

Module GeminiService.

(** [/(cubic|cu\s?ft|ft\s?³|feet)/i] *)
Definition unitsRe : RegExp :=
  mkRegExp false
    (Alt (word_i (str "cubic"))
    (Alt (Cat (word_i (str "cu")) (Cat (Opt (Cls is_space)) (word_i (str "ft"))))
    (Alt (Cat (word_i (str "ft")) (Cat (Opt (Cls is_space)) (lit_i 179)))
         (word_i (str "feet")))))
    false.

(** [/^\d+(\.\d+)?$/] *)
Definition numberRe : RegExp :=
  mkRegExp true
    (Cat (Plus (Cls is_digit))
         (Opt (Cat (Cls (N.eqb 46)) (Plus (Cls is_digit)))))
    true.

(** [/\d/] *)
Definition digitRe : RegExp := mkRegExp false (Cls is_digit) false.

(** [ensureUnits], on a size that is a string ([String(size)] is then
    [size] itself). *)
Definition ensureUnits (size : jsstring) : jsstring :=
  let sizeStr := trim size in
  if test unitsRe sizeStr then sizeStr
  else if test numberRe sizeStr || test digitRe sizeStr
       then sizeStr ++ str " cubic feet"
       else sizeStr.

(** The object [JSON.parse] returns for a reply that has the types of the
    response schema, seen through the cast [as InventoryData]: each
    top-level field may be missing. A reply of any other shape is read by
    [OnJSON.generateInventoryFromDescription], which is this function on
    the replies that have the types ([generate_typed_agrees]). *)
Record ParsedData : Type := mkParsedData {
  parsed_inventory : option (list InventoryItem);
  parsed_transcript : option jsstring;
  parsed_totalEstimatedSize : option jsstring
}.

(** What [ai.models.generateContent] and [JSON.parse] come back with: the
    call rejects, or reading the reply throws (it has no text, or its text
    is not JSON), or the text parses. *)
Inductive ServiceReply : Type :=
| CallRejected (reason : Thrown)
| NotJSON (reason : Thrown)
| Parsed (parsedData : ParsedData).

(** [!v] on a field that holds a string: missing or empty. *)
Definition not_string (v : option jsstring) : bool :=
  match v with
  | None | Some [] => true
  | Some (_ :: _) => false
  end.

(** [!v] on a field that holds an array: missing (an array, even an
    empty one, is truthy). *)
Definition not_array {A} (v : option (list A)) : bool :=
  match v with
  | None => true
  | Some _ => false
  end.

Definition missingFieldsError : Thrown :=
  ErrorObj (str "AI response is missing required fields.").

Definition generationError : Thrown :=
  ErrorObj (str "Failed to generate inventory from AI. Please check the console for more details.").

(** The body of the [try] block, from the reply on. Past the check the
    three fields are there, and reading one never falls back on the
    default. *)
Definition tryGenerate (reply : ServiceReply) : Thrown + InventoryData :=
  match reply with
  | CallRejected reason => inl reason
  | NotJSON reason => inl reason
  | Parsed parsedData =>
      if not_array (parsed_inventory parsedData)
         || not_string (parsed_transcript parsedData)
         || not_string (parsed_totalEstimatedSize parsedData)
      then inl missingFieldsError
      else
        inr {| totalEstimatedSize :=
                 ensureUnits (default [] (parsed_totalEstimatedSize parsedData));
               inventory :=
                 map (fun item =>
                        {| name := name item;
                           count := count item;
                           description := description item;
                           tags := tags item;
                           estimatedSize := ensureUnits (estimatedSize item) |})
                     (default [] (parsed_inventory parsedData));
               transcript := default [] (parsed_transcript parsedData) |}
  end.

(** [generateInventoryFromDescription]: the promise resolves with the
    inventory or rejects with the one error of the [catch] block. The
    argument is the reply of the service to the prompt built from the
    description. *)
Definition generateInventoryFromDescription (reply : ServiceReply)
  : Thrown + InventoryData :=
  match tryGenerate reply with
  | inr parsedData => inr parsedData
  | inl _ => inl generationError
  end.

End GeminiService.

Import GeminiService.

(* ===================================================================== *)
(** ** services/storageService                                            *)
(* ===================================================================== *)

Module StorageService.

(** The text [localStorage] holds under a key, by what reading it does:
    the empty string; a text, not empty, on which the [try] block of
    [getSavedInventories] throws ([JSON.parse] rejects it, or what it
    parses to is not an array, or the comparison of the sort throws on an
    element); or the [JSON.stringify] of a list of records, which is what
    [saveInventory] and [deleteInventoryById] write. A text that parses to
    an array of other values, which the code sorts and returns as it is,
    has no counterpart here: [OnJSON.getSavedInventories] reads any
    text. *)
Inductive StoredText : Type :=
| EmptyText
| Malformed
| Serialized (inventories : list SavedInventoryData).

Definition STORAGE_KEY : string := "easyMoveInventories".

(** [localStorage.setItem]: it throws when the quota is exceeded, which is
    up to the browser ([room = false]). *)
Definition setItem (room : bool) (key : string) (value : StoredText)
    (localStorage : gmap string StoredText)
  : option (gmap string StoredText) :=
  if room then Some (<[key := value]> localStorage) else None.

(** The comparison function of the sort: most recent first. *)
Definition byCreatedAtDesc (a b : SavedInventoryData) : Z :=
  (createdAt b - createdAt a)%Z.

(** [getSavedInventories]: the list read, and [localStorage] afterwards. *)
Definition getSavedInventories (localStorage : gmap string StoredText)
  : list SavedInventoryData * gmap string StoredText :=
  match localStorage !! STORAGE_KEY with
  | Some (Serialized inventories) =>
      (sort byCreatedAtDesc inventories, localStorage)
  | Some Malformed => ([], delete STORAGE_KEY localStorage)
  | Some EmptyText => ([], localStorage)
  | None => ([], localStorage)
  end.

Definition saveError : Thrown :=
  ErrorObj (str "Could not save the inventory. Storage might be full.").

(** [saveInventory]. [idClock] and [createdClock] are the two readings of
    the clock, [new Date().getTime()] for the id and
    [new Date().toISOString()] for [createdAt]. *)
Definition saveInventory (idClock createdClock : Z) (room : bool)
    (inventoryData : InventoryData) (localStorage : gmap string StoredText)
  : (Thrown + SavedInventoryData) * gmap string StoredText :=
  let '(allInventories, localStorage1) := getSavedInventories localStorage in
  let newInventory :=
    {| saved_data := inventoryData;
       id := str "inv_" ++ decimal idClock;
       createdAt := createdClock |} in
  let allInventories' := newInventory :: allInventories in
  match setItem room STORAGE_KEY (Serialized allInventories') localStorage1 with
  | Some localStorage2 => (inr newInventory, localStorage2)
  | None => (inl saveError, localStorage1)
  end.

(** [deleteInventoryById]: a failed write is logged and dropped. *)
Definition deleteInventoryById (room : bool) (id0 : jsstring)
    (localStorage : gmap string StoredText) : gmap string StoredText :=
  let '(allInventories, localStorage1) := getSavedInventories localStorage in
  let filteredInventories := filter (fun inv => id inv ≠ id0) allInventories in
  match setItem room STORAGE_KEY (Serialized filteredInventories) localStorage1 with
  | Some localStorage2 => localStorage2
  | None => localStorage1
  end.

(** [list()] of the specification: what [getSavedInventories] returns. *)
Definition listed (localStorage : gmap string StoredText)
  : list SavedInventoryData :=
  fst (getSavedInventories localStorage).

End StorageService.

Import StorageService.

(* ===================================================================== *)
(** ** App.tsx                                                            *)
(* ===================================================================== *)

Module App.

Inductive View : Type :=
| IDLE | PROCESSING | SUCCESS | ERROR | LIST_INVENTORIES | CAPTURING_VIDEO.

(** [InventoryData | SavedInventoryData]: a saved record is the one that
    has an [id] (['id' in activeInventory]). *)
Inductive Active : Type :=
| Generated (result : InventoryData)
| FromStore (inventory : SavedInventoryData).

(** The [useState] cells of the component. *)
Record State : Type := mkState {
  description : jsstring;
  view : View;
  activeInventory : option Active;
  savedInventories : list SavedInventoryData;
  error : option jsstring;
  fileName : option jsstring;
  isProcessingVideo : bool
}.

Definition setDescription (v : jsstring) (st : State) : State :=
  mkState v (view st) (activeInventory st) (savedInventories st)
          (error st) (fileName st) (isProcessingVideo st).
Definition setView (v : View) (st : State) : State :=
  mkState (description st) v (activeInventory st) (savedInventories st)
          (error st) (fileName st) (isProcessingVideo st).
Definition setActiveInventory (v : option Active) (st : State) : State :=
  mkState (description st) (view st) v (savedInventories st)
          (error st) (fileName st) (isProcessingVideo st).
Definition setSavedInventories (v : list SavedInventoryData) (st : State)
  : State :=
  mkState (description st) (view st) (activeInventory st) v
          (error st) (fileName st) (isProcessingVideo st).
Definition setError (v : option jsstring) (st : State) : State :=
  mkState (description st) (view st) (activeInventory st)
          (savedInventories st) v (fileName st) (isProcessingVideo st).
Definition setFileName (v : option jsstring) (st : State) : State :=
  mkState (description st) (view st) (activeInventory st)
          (savedInventories st) (error st) v (isProcessingVideo st).
Definition setIsProcessingVideo (v : bool) (st : State) : State :=
  mkState (description st) (view st) (activeInventory st)
          (savedInventories st) (error st) (fileName st) v.

(** [err instanceof Error ? err.message : fallback] *)
Definition messageOr (fallback : jsstring) (err : Thrown) : jsstring :=
  match err with
  | ErrorObj message => message
  | OtherValue => fallback
  end.

(** [processVideoFile], up to the [await] ... *)
Definition processVideoFile (file_name : jsstring) (st : State) : State :=
  setDescription []
    (setError None
      (setIsProcessingVideo true
        (setFileName (Some file_name) st))).

(** ... and from the moment [generateDescriptionFromVideo] settles. *)
Definition processVideoFile_settled (outcome : Thrown + jsstring)
    (st : State) : State :=
  setIsProcessingVideo false
    match outcome with
    | inr generatedDescription => setDescription generatedDescription st
    | inl err =>
        setFileName None
          (setError (Some (messageOr (str "Could not process the video file.") err)) st)
    end.

(** [handleFileChange], on the name of the first file chosen, if any. *)
Definition handleFileChange (file : option jsstring) (st : State) : State :=
  match file with
  | Some file_name => processVideoFile file_name st
  | None => setFileName None st
  end.

Definition handleCaptureComplete (file_name : jsstring) (st : State)
  : State :=
  processVideoFile file_name (setView IDLE st).

Definition validationMessage : jsstring :=
  str "Please describe the contents of your space for an accurate estimate.".

(** [handleSubmit], up to the [await]: the state, and the description
    the generation is requested for, if it is. *)
Definition handleSubmit (st : State) : State * option jsstring :=
  match trim (description st) with
  | [] => (setError (Some validationMessage) st, None)
  | _ :: _ =>
      (setActiveInventory None (setView PROCESSING (setError None st)),
       Some (description st))
  end.

(** [handleSubmit], from the moment the generation settles. *)
Definition handleSubmit_settled (outcome : Thrown + InventoryData)
    (st : State) : State :=
  match outcome with
  | inr result => setView SUCCESS (setActiveInventory (Some (Generated result)) st)
  | inl err =>
      setView ERROR
        (setError (Some (messageOr (str "An unknown error occurred.") err)) st)
  end.

Definition handleResetToIdle (st : State) : State :=
  setIsProcessingVideo false
    (setFileName None
      (setDescription []
        (setError None
          (setActiveInventory None
            (setView IDLE st))))).

(** [handleSaveInventory]: when [saveInventory] throws, the handler is
    left before any cell is set. *)
Definition handleSaveInventory (idClock createdClock : Z) (room : bool)
    (inventoryToSave : InventoryData)
    (st : State) (localStorage : gmap string StoredText)
  : State * gmap string StoredText :=
  match saveInventory idClock createdClock room inventoryToSave localStorage with
  | (inr newSavedItem, localStorage') =>
      (setView LIST_INVENTORIES
         (setSavedInventories (newSavedItem :: savedInventories st) st),
       localStorage')
  | (inl _, localStorage') => (st, localStorage')
  end.

Definition handleDeleteInventory (room : bool) (id0 : jsstring)
    (st : State) (localStorage : gmap string StoredText)
  : State * gmap string StoredText :=
  let localStorage1 := deleteInventoryById room id0 localStorage in
  let '(updatedList, localStorage2) := getSavedInventories localStorage1 in
  let st1 := setSavedInventories updatedList st in
  (match activeInventory st with
   | Some (FromStore inv) =>
       if decide (id inv = id0)
       then setActiveInventory None (setView LIST_INVENTORIES st1)
       else st1
   | _ => st1
   end,
   localStorage2).

Definition handleViewInventory (inventory : SavedInventoryData)
    (st : State) : State :=
  setView SUCCESS (setActiveInventory (Some (FromStore inventory)) st).

(** The [onDone] of the result view. *)
Definition onDone (st : State) : State :=
  match activeInventory st with
  | Some (FromStore _) => setView LIST_INVENTORIES st
  | _ => handleResetToIdle st
  end.

(** The component with what it acts on: its state, [localStorage], and
    the number of video descriptions still awaited. *)
Record World : Type := mkWorld {
  ui : State;
  localStorage : gmap string StoredText;
  videoJobs : nat
}.

(** What can happen to the component: a control of the view on display
    is used, or an awaited promise settles. *)
Inductive Event : Type :=
| TypeDescription (text : jsstring)
| ChooseFile (file : option jsstring)
| UseCamera
| ViewSaved
| Submit
| GenerationSettled (reply : ServiceReply)
| VideoDescribed (outcome : Thrown + jsstring)
| CaptureCancel
| CaptureComplete (file_name : jsstring)
| Save (inventoryToSave : InventoryData) (idClock createdClock : Z) (room : bool)
| Delete (id0 : jsstring) (room : bool)
| Done
| ViewInventory (inventory : SavedInventoryData)
| New
| TryAgain.

#[global] Instance View_eq_dec : EqDecision View.
Proof. solve_decision. Defined.

Definition is_view (v : View) (st : State) : bool :=
  bool_decide (view st = v).

(** The result view is rendered when there is an active inventory. *)
Definition showsResult (st : State) : bool :=
  is_view SUCCESS st && bool_decide (is_Some (activeInventory st)).

(** The form controls are there while no video is being analysed. *)
Definition formReady (st : State) : bool :=
  is_view IDLE st && negb (isProcessingVideo st).

(** [renderContent] wires each control to its handler; an event the view
    on display does not offer gives [None]. *)
Definition dispatch (e : Event) (w : World) : option World :=
  let st := ui w in
  let keep st' := Some (mkWorld st' (localStorage w) (videoJobs w)) in
  match e with
  | TypeDescription text =>
      if formReady st then keep (setDescription text st) else None
  | ChooseFile file =>
      if formReady st
      then Some (mkWorld (handleFileChange file st) (localStorage w)
                         (match file with
                          | Some _ => S (videoJobs w)
                          | None => videoJobs w
                          end))
      else None
  | UseCamera =>
      if formReady st then keep (setView CAPTURING_VIDEO st) else None
  | ViewSaved =>
      if is_view IDLE st && negb (bool_decide (savedInventories st = []))
      then keep (setView LIST_INVENTORIES st) else None
  | Submit =>
      if formReady st then keep (fst (handleSubmit st)) else None
  | GenerationSettled reply =>
      if is_view PROCESSING st
      then keep (handleSubmit_settled (generateInventoryFromDescription reply) st)
      else None
  | VideoDescribed outcome =>
      match videoJobs w with
      | O => None
      | S jobs =>
          Some (mkWorld (processVideoFile_settled outcome st)
                        (localStorage w) jobs)
      end
  | CaptureCancel =>
      if is_view CAPTURING_VIDEO st then keep (setView IDLE st) else None
  | CaptureComplete file_name =>
      if is_view CAPTURING_VIDEO st
      then Some (mkWorld (handleCaptureComplete file_name st)
                         (localStorage w) (S (videoJobs w)))
      else None
  | Save inventoryToSave idClock createdClock room =>
      if showsResult st
      then let '(st', localStorage') :=
             handleSaveInventory idClock createdClock room inventoryToSave
                                 st (localStorage w) in
           Some (mkWorld st' localStorage' (videoJobs w))
      else None
  | Delete id0 room =>
      if showsResult st || is_view LIST_INVENTORIES st
      then let '(st', localStorage') :=
             handleDeleteInventory room id0 st (localStorage w) in
           Some (mkWorld st' localStorage' (videoJobs w))
      else None
  | Done =>
      if showsResult st then keep (onDone st) else None
  | ViewInventory inventory =>
      if is_view LIST_INVENTORIES st
      then keep (handleViewInventory inventory st) else None
  | New =>
      if is_view LIST_INVENTORIES st then keep (handleResetToIdle st) else None
  | TryAgain =>
      if is_view ERROR st then keep (handleResetToIdle st) else None
  end.

(** The component as mounted: the initial cells, and the list read from
    [localStorage] by the mount effect. *)
Definition mount (storage : gmap string StoredText) : World :=
  let '(inventories, storage') := getSavedInventories storage in
  mkWorld (mkState [] IDLE None inventories None None false) storage' 0.

(** The worlds the component can be in. *)
Inductive reachable : World -> Prop :=
| reachable_mount storage : reachable (mount storage)
| reachable_step w e w' :
    reachable w -> dispatch e w = Some w' -> reachable w'.

(** Running a list of events from a world. *)
Fixpoint run (es : list Event) (w : World) : option World :=
  match es with
  | [] => Some w
  | e :: rest =>
      match dispatch e w with
      | Some w' => run rest w'
      | None => None
      end
  end.

End App.

Import App.

(* ===================================================================== *)
(** ** components/SavedInventoriesPage                                    *)
(* ===================================================================== *)

Module SavedInventoriesPage.

(** The longest run of digits in front of a string, and what follows. *)
Fixpoint digits (s : jsstring) : jsstring * jsstring :=
  match s with
  | [] => ([], [])
  | c :: rest =>
      if is_digit c
      then let '(run, after) := digits rest in (c :: run, after)
      else ([], s)
  end.

(** What [(\.\d+)?] takes of what follows the digits: a dot and the digits
    behind it when there are some (the quantifier is greedy), or nothing. *)
Definition fractionHere (after : jsstring) : jsstring :=
  match after with
  | 46 :: rest =>
      match digits rest with
      | ([], _) => []
      | (fraction, _) => 46 :: fraction
      end
  | _ => []
  end.

(** A match of [/(\d+(\.\d+)?)/] that starts at the front of the string:
    [\d+] is greedy and takes the digits to the last one. *)
Definition matchNumberHere (s : jsstring) : option jsstring :=
  match digits s with
  | ([], _) => None
  | (whole, after) => Some (whole ++ fractionHere after)
  end.

(** [sizeString.match(/(\d+(\.\d+)?)/)]: the match at the first index that
    has one ([match[0]]), or [None] for [null]. *)
Fixpoint matchNumber (s : jsstring) : option jsstring :=
  match matchNumberHere s with
  | Some found => Some found
  | None =>
      match s with
      | [] => None
      | _ :: rest => matchNumber rest
      end
  end.

(** The value of a decimal digit. *)
Definition digitValue (c : N) : Z := Z.of_N (c - 48).

(** [parseInt(s, 10)]: white space in front is skipped, a sign is read, then
    the digits up to the first code unit that is not one; [None] is [NaN].
    The integer is kept exact: the page compares it with the length of an
    array only, which comes out the same as on the double. *)
Definition parseInt10 (s : jsstring) : option Z :=
  let '(sign, unsigned) :=
    match trimStart s with
    | 45 :: rest => ((-1)%Z, rest)
    | 43 :: rest => (1%Z, rest)
    | rest => (1%Z, rest)
    end in
  match digits unsigned with
  | ([], _) => None
  | (run, _) =>
      Some (sign * fold_left (fun acc c => 10 * acc + digitValue c) run 0)%Z
  end.

Inductive SortOrder : Type := newest | oldest.

(** The [useState] cells of the page. *)
Record Filters : Type := mkFilters {
  sortOrder : SortOrder;
  minItems : jsstring;
  minVolume : jsstring
}.

Definition handleClearFilters (_ : Filters) : Filters :=
  mkFilters newest [] [].

(** The comparison function of the page's sort. *)
Definition byDate (order : SortOrder) (a b : SavedInventoryData) : Z :=
  match order with
  | newest => (createdAt b - createdAt a)%Z
  | oldest => (createdAt a - createdAt b)%Z
  end.

Section Numbers.

(** The floating-point numbers of the page and what it does with them:
    [parseFloat], [isNaN], [>=] and the literal [0]. *)
Variable Number : Type.
Variable parseFloat : jsstring -> Number.
Variable isNaN : Number -> bool.
Variable geq : Number -> Number -> bool.
Variable zero : Number.

Definition parseVolume (sizeString : jsstring) : Number :=
  match sizeString with
  | [] => zero
  | _ :: _ =>
      match matchNumber sizeString with
      | Some found => parseFloat found
      | None => zero
      end
  end.

(** The filter on the number of item types, applied when the box is not
    empty and holds an integer. *)
Definition filterMinItems (minItems : jsstring)
    (processedInventories : list SavedInventoryData)
  : list SavedInventoryData :=
  match minItems with
  | [] => processedInventories
  | _ :: _ =>
      match parseInt10 minItems with
      | Some minItemsNum =>
          filter (fun inv => (minItemsNum <= Z.of_nat (length (inventory (saved_data inv))))%Z)
                 processedInventories
      | None => processedInventories
      end
  end.

(** The filter on the total volume, applied when the box is not empty and
    holds a number. *)
Definition filterMinVolume (minVolume : jsstring)
    (processedInventories : list SavedInventoryData)
  : list SavedInventoryData :=
  match minVolume with
  | [] => processedInventories
  | _ :: _ =>
      let minVolumeNum := parseFloat minVolume in
      if isNaN minVolumeNum then processedInventories
      else filter (fun inv =>
                     geq (parseVolume (totalEstimatedSize (saved_data inv)))
                         minVolumeNum = true)
                  processedInventories
  end.

(** [filteredAndSortedInventories]: a copy of the list, filtered, then
    sorted. *)
Definition filteredAndSortedInventories
    (inventories : list SavedInventoryData) (cells : Filters)
  : list SavedInventoryData :=
  sort (byDate (sortOrder cells))
       (filterMinVolume (minVolume cells)
          (filterMinItems (minItems cells) inventories)).

End Numbers.

End SavedInventoriesPage.

Import SavedInventoriesPage.

(* ===================================================================== *)
(** ** components/ProcessingIndicator                                     *)
(* ===================================================================== *)

Module ProcessingIndicator.

Definition processingSteps : list string :=
  [ "Warming up the AI engine...";
    "Scanning the floor plan...";
    "Identifying furniture and boxes...";
    "Calculating volume requirements...";
    "Estimating your truck size...";
    "Generating your detailed inventory...";
    "Finalizing your moving plan..." ]%string.

(** The update of [currentStep] at each tick of the interval. *)
Definition nextStep (prevStep : nat) : nat :=
  ((prevStep + 1) mod length processingSteps)%nat.

(** [currentStep] after a number of ticks, from the initial [0]. *)
Fixpoint currentStep (ticks : nat) : nat :=
  match ticks with
  | O => O
  | S earlier => nextStep (currentStep earlier)
  end.

(** The message on display: [processingSteps[currentStep]]. *)
Definition message (ticks : nat) : option string :=
  processingSteps !! currentStep ticks.

End ProcessingIndicator.

(* ===================================================================== *)
(** ** The two services on the text they read                             *)
(* ===================================================================== *)

(** [generateInventoryFromDescription] and [getSavedInventories] once
    more, this time from the text of the reply and from the text in
    [localStorage], with [JSON.parse] between the text and the code: what
    comes out of it need not have the shape the cast [as InventoryData] or
    [as SavedInventoryData[]] gives it a name for. *)
Module OnJSON.

(** A value [JSON.parse] returns. An object is the list of its own
    properties, in their order, one for each key. *)
#[local] Unset Elimination Schemes.

Inductive Value (Num : Type) : Type :=
| VNull
| VBool (b : bool)
| VNumber (n : Num)
| VString (s : jsstring)
| VArray (elements : list (Value Num))
| VObject (properties : list (jsstring * Value Num)).

#[local] Set Elimination Schemes.

Arguments VNull {Num}.
Arguments VBool {Num} b.
Arguments VNumber {Num} n.
Arguments VString {Num} s.
Arguments VArray {Num} elements.
Arguments VObject {Num} properties.

(** A [TypeError] of the runtime; its message is the engine's. *)
Definition typeError : Thrown := ErrorObj (str "TypeError").

(** Running [k] on what [r] returns, unless [r] throws. *)
Definition andThen {A B} (r : Thrown + A) (k : A -> Thrown + B)
  : Thrown + B :=
  match r with
  | inl thrown => inl thrown
  | inr a => k a
  end.

Notation "'let!' x ':=' r 'in' k" := (andThen r (fun x => k))
  (at level 10, x name, r at level 100, k at level 200).

(** [array.map(callbackfn)] with a callback that may throw: the elements
    are visited in order and the first throw ends the call. *)
Fixpoint mapThrowing {A B} (callbackfn : A -> Thrown + B) (array : list A)
  : Thrown + list B :=
  match array with
  | [] => inr []
  | x :: rest =>
      let! y := callbackfn x in
      let! others := mapThrowing callbackfn rest in
      inr (y :: others)
  end.

(** The own property of a key, [None] for [undefined]. *)
Fixpoint lookup {V} (key : jsstring) (properties : list (jsstring * V))
  : option V :=
  match properties with
  | [] => None
  | (k, v) :: rest => if decide (k = key) then Some v else lookup key rest
  end.

(** Writing a property: a key that is there keeps its place, a new one
    goes last. *)
Fixpoint setProperty {V} (key : jsstring) (v : V)
    (properties : list (jsstring * V)) : list (jsstring * V) :=
  match properties with
  | [] => [(key, v)]
  | (k, old) :: rest =>
      if decide (k = key) then (k, v) :: rest
      else (k, old) :: setProperty key v rest
  end.

(** The elements of an array or the code units of a string as index
    properties, from index [i] on. *)
Fixpoint indexed {V} (i : nat) (elements : list V) : list (jsstring * V) :=
  match elements with
  | [] => []
  | x :: rest => (decimal (Z.of_nat i), x) :: indexed (S i) rest
  end.

Section Values.

Variable Num : Type.

(** Numbers are doubles: whether one is neither zero nor [NaN], and the
    string [String] makes of it, are left to the runtime. *)
Variable numberIsTruthy : Num -> bool.
Variable numberToString : Num -> jsstring.

(** [JSON.parse]: the value, or what it throws on a text that is not
    JSON. *)
Variable JSON_parse : jsstring -> Thrown + Value Num.

(** [value.key], for a key that is neither an index, nor [length], nor a
    name a prototype defines: it is one of the object's own properties or
    [undefined], and reading it off [null] throws. *)
Definition get (key : jsstring) (value : Value Num)
  : Thrown + option (Value Num) :=
  match value with
  | VNull => inl typeError
  | VObject properties => inr (lookup key properties)
  | _ => inr None
  end.

(** [!!value], [None] being [undefined]. *)
Definition truthy (value : option (Value Num)) : bool :=
  match value with
  | None => false
  | Some VNull => false
  | Some (VBool b) => b
  | Some (VNumber n) => numberIsTruthy n
  | Some (VString s) => negb (bool_decide (s = []))
  | Some (VArray _) => true
  | Some (VObject _) => true
  end.

(** [String(value)]. An array is joined with commas, a [null] in it
    counting as the empty string. An object that has no [toString] of its
    own inherits the one that answers [[object Object]]; one that has one
    (which is then not a function) cannot be converted: [valueOf] is
    either its own and not a function either, or the inherited one, which
    returns the object. *)
Fixpoint toString (value : Value Num) : Thrown + jsstring :=
  match value with
  | VNull => inr (str "null")
  | VBool true => inr (str "true")
  | VBool false => inr (str "false")
  | VNumber n => inr (numberToString n)
  | VString s => inr s
  | VArray elements =>
      (fix join (elements : list (Value Num)) : Thrown + jsstring :=
         match elements with
         | [] => inr []
         | x :: rest =>
             let! first := match x with
                           | VNull => inr []
                           | _ => toString x
                           end in
             match rest with
             | [] => inr first
             | _ :: _ => let! others := join rest in
                         inr (first ++ 44 :: others)
             end
         end) elements
  | VObject properties =>
      match lookup (str "toString") properties with
      | Some _ => inl typeError
      | None => inr (str "[object Object]")
      end
  end.

(** [ensureUnits], on any value: [String(size)] comes first. *)
Definition ensureUnits (size : option (Value Num)) : Thrown + jsstring :=
  let! sizeText := match size with
                   | None => inr (str "undefined")
                   | Some value => toString value
                   end in
  inr (GeminiService.ensureUnits sizeText).

(** The properties [{...item}] copies: the own enumerable ones. *)
Definition spread (item : Value Num) : list (jsstring * Value Num) :=
  match item with
  | VObject properties => properties
  | VArray elements => indexed 0 elements
  | VString s => indexed 0 (map (fun c => VString [c]) s)
  | VNull | VBool _ | VNumber _ => []
  end.

(** What [await ai.models.generateContent] comes back with: the call
    rejects, or there is a response, whose [text] may be [undefined]. *)
Inductive ServiceReply : Type :=
| CallRejected (reason : Thrown)
| Replied (text : option jsstring).

(** The callback of [parsedData.inventory.map]. *)
Definition withUnits (item : Value Num) : Thrown + Value Num :=
  let copied := spread item in
  let! size := get (str "estimatedSize") item in
  let! sizeText := ensureUnits size in
  inr (VObject (setProperty (str "estimatedSize") (VString sizeText) copied)).

(** The body of the [try] block, from the reply on. Only an object has
    one of the three fields; reading them off [null] throws. *)
Definition tryGenerate (reply : ServiceReply) : Thrown + Value Num :=
  match reply with
  | CallRejected reason => inl reason
  | Replied None => inl typeError
  | Replied (Some text) =>
      let jsonText := trim text in
      let! parsedData := JSON_parse jsonText in
      match parsedData with
      | VNull => inl typeError
      | VObject properties =>
          let inventory := lookup (str "inventory") properties in
          let transcript := lookup (str "transcript") properties in
          let totalEstimatedSize :=
            lookup (str "totalEstimatedSize") properties in
          if negb (truthy inventory) || negb (truthy transcript)
             || negb (truthy totalEstimatedSize)
          then inl missingFieldsError
          else
            let! total := ensureUnits totalEstimatedSize in
            let properties1 :=
              setProperty (str "totalEstimatedSize") (VString total)
                          properties in
            match inventory with
            | Some (VArray items) =>
                let! items' := mapThrowing withUnits items in
                inr (VObject (setProperty (str "inventory") (VArray items')
                                          properties1))
            | _ => inl typeError
            end
      | VBool _ | VNumber _ | VString _ | VArray _ =>
          inl missingFieldsError
      end
  end.

(** [generateInventoryFromDescription]: whatever the [try] block throws,
    the [catch] block throws the one error in its place. *)
Definition generateInventoryFromDescription (reply : ServiceReply)
  : Thrown + Value Num :=
  match tryGenerate reply with
  | inr parsedData => inr parsedData
  | inl _ => inl generationError
  end.

(** [inventories.sort(comparefn)] on an array of the text: the order
    comes from [new Date(x.createdAt).getTime()] on whatever the elements
    are, and the comparison may throw; both are left to the runtime. *)
Variable sortByCreatedAt : list (Value Num) -> Thrown + list (Value Num).

(** The [try] block of [getSavedInventories]: the array returned, or
    [None] when the block is left without a [return]. Only an array has
    a [sort]. *)
Definition tryGetSavedInventories (localStorage : gmap string jsstring)
  : Thrown + option (list (Value Num)) :=
  match localStorage !! STORAGE_KEY with
  | Some (c :: rest) =>
      let savedData := c :: rest in
      let! inventories := JSON_parse savedData in
      match inventories with
      | VArray elements =>
          let! sorted := sortByCreatedAt elements in
          inr (Some sorted)
      | _ => inl typeError
      end
  | Some [] | None => inr None
  end.

(** [getSavedInventories]: the array returned and [localStorage] as the
    call leaves it. *)
Definition getSavedInventories (localStorage : gmap string jsstring)
  : list (Value Num) * gmap string jsstring :=
  match tryGetSavedInventories localStorage with
  | inr (Some inventories) => (inventories, localStorage)
  | inr None => ([], localStorage)
  | inl _ => ([], delete STORAGE_KEY localStorage)
  end.

(** The values of the types of [types.ts], as [JSON.parse] returns them. *)
Variable numberOfZ : Z -> Num.

Definition valueOfItem (item : InventoryItem) : Value Num :=
  VObject [ (str "name", VString (name item));
            (str "count", VNumber (numberOfZ (count item)));
            (str "description", VString (Types.description item));
            (str "tags", VArray (map VString (tags item)));
            (str "estimatedSize", VString (estimatedSize item)) ].

Definition propertyOf (key : string) (value : option (Value Num))
  : list (jsstring * Value Num) :=
  match value with
  | Some v => [(str key, v)]
  | None => []
  end.

Definition valueOfParsedData (parsedData : ParsedData) : Value Num :=
  VObject
    (propertyOf "inventory"
       ((fun items => VArray (map valueOfItem items))
          <$> parsed_inventory parsedData)
     ++ propertyOf "transcript" (VString <$> parsed_transcript parsedData)
     ++ propertyOf "totalEstimatedSize"
          (VString <$> parsed_totalEstimatedSize parsedData)).

Definition valueOfInventoryData (data : InventoryData) : Value Num :=
  VObject [ (str "inventory", VArray (map valueOfItem (inventory data)));
            (str "transcript", VString (transcript data));
            (str "totalEstimatedSize", VString (totalEstimatedSize data)) ].

End Values.

End OnJSON.

(* ===================================================================== *)
(** ** Notions the properties are stated with                             *)
(* ===================================================================== *)

(** The strings a pattern denotes. *)
Inductive lang : regex -> jsstring -> Prop :=
| lang_eps : lang Eps []
| lang_cls p c : p c = true -> lang (Cls p) [c]
| lang_cat r1 r2 s1 s2 :
    lang r1 s1 -> lang r2 s2 -> lang (Cat r1 r2) (s1 ++ s2)
| lang_alt_l r1 r2 s : lang r1 s -> lang (Alt r1 r2) s
| lang_alt_r r1 r2 s : lang r2 s -> lang (Alt r1 r2) s
| lang_star_nil r : lang (Star r) []
| lang_star_app r s1 s2 :
    lang r s1 -> lang (Star r) s2 -> lang (Star r) (s1 ++ s2).

(** A volume-unit token, letter by letter: [Some c] stands for the letter
    [c] in either case, [None] for one white-space code unit. *)
Definition letters (w : string) : list (option N) := map Some (str w).

Definition unit_forms : list (list (option N)) :=
  [ letters "cubic";
    letters "cuft";
    letters "cu" ++ [None] ++ letters "ft";
    letters "ft" ++ [Some 179];
    letters "ft" ++ [None; Some 179];
    letters "feet" ].

Definition fits (x : N) (e : option N) : bool :=
  match e with
  | Some c => fold_case x =? fold_case c
  | None => is_space x
  end.

(** [form] fits the front of [s]. *)
Fixpoint fits_front (form : list (option N)) (s : jsstring) : bool :=
  match form, s with
  | [], _ => true
  | _ :: _, [] => false
  | e :: form', x :: s' => fits x e && fits_front form' s'
  end.

(** [form] fits somewhere in [s]. *)
Fixpoint occurs (form : list (option N)) (s : jsstring) : bool :=
  fits_front form s
  || match s with
     | [] => false
     | _ :: s' => occurs form s'
     end.

(** The string contains a volume-unit token: "cubic", "cu ft", "ft³" or
    "feet", in any letter case, the blank optional. *)
Definition has_unit_token (s : jsstring) : bool :=
  existsb (fun form => occurs form s) unit_forms.

(** The string contains a digit. *)
Definition has_digit (s : jsstring) : bool := existsb is_digit s.

(** The string is made of white space only (the empty string included). *)
Definition blank (s : jsstring) : bool := forallb is_space s.

(** [x] fits the element [e] of a form. *)
Definition fitsP (x : N) (e : option N) : Prop := fits x e = true.

(** The string does not start with white space. *)
Definition headed (s : jsstring) : Prop :=
  match s with
  | [] => True
  | c :: _ => is_space c = false
  end.

(** A required top-level field is missing, or a string field is empty. *)
Definition lacks_field (p : ParsedData) : Prop :=
  parsed_inventory p = None
  \/ parsed_transcript p = None \/ parsed_transcript p = Some []
  \/ parsed_totalEstimatedSize p = None
  \/ parsed_totalEstimatedSize p = Some [].

(** What the post-processing does to one item. *)
Definition same_but_size (out item : InventoryItem) : Prop :=
  name out = name item
  /\ count out = count item
  /\ Types.description out = Types.description item
  /\ tags out = tags item
  /\ estimatedSize out = ensureUnits (estimatedSize item).

(** The list has the most recent records first. *)
Definition newest_first (l : list SavedInventoryData) : Prop :=
  StronglySorted (fun a b => (createdAt b <= createdAt a)%Z) l.

(** The record [saveInventory] makes of [inventoryData] at the two clock
    readings. *)
Definition enriched (idClock createdClock : Z) (inventoryData : InventoryData)
  : SavedInventoryData :=
  {| saved_data := inventoryData;
     id := str "inv_" ++ decimal idClock;
     createdAt := createdClock |}.

(** Where an active inventory can be: in the result view, and in the list
    view, which does not show it. *)
Definition active_placed (st : State) : Prop :=
  activeInventory st = None
  \/ view st = SUCCESS \/ view st = LIST_INVENTORIES.

(** A reply of the service that parses, with one item. *)
Definition sampleReply : ServiceReply :=
  Parsed {| parsed_inventory :=
              Some [ {| name := str "Sofa"; count := 1;
                        Types.description := str "3-seater";
                        tags := [str "Living Room"];
                        estimatedSize := str "50" |} ];
            parsed_transcript := Some (str "Here is the sofa.");
            parsed_totalEstimatedSize := Some (str "approx. 50 cubic feet") |}.

(** What the generation makes of [sampleReply]. *)
Definition sampleInventory : InventoryData :=
  {| inventory :=
       [ {| name := str "Sofa"; count := 1;
            Types.description := str "3-seater";
            tags := [str "Living Room"];
            estimatedSize := str "50 cubic feet" |} ];
     transcript := str "Here is the sofa.";
     totalEstimatedSize := str "approx. 50 cubic feet" |}.

(** What the cells of the component keep to: the result view has an
    inventory to show and the error view a message; while a video is being
    analysed a description is awaited; the saved inventories held are the
    records the store lists. *)
Definition coherent (w : World) : Prop :=
  (view (ui w) = SUCCESS -> is_Some (activeInventory (ui w)))
  /\ (view (ui w) = ERROR -> is_Some (error (ui w)))
  /\ (isProcessingVideo (ui w) = true -> (0 < videoJobs w)%nat)
  /\ savedInventories (ui w) ≡ₚ listed (localStorage w).

(** The order the list page sorts in. *)
Definition in_order (order : SortOrder) (a b : SavedInventoryData) : Prop :=
  match order with
  | newest => (createdAt b <= createdAt a)%Z
  | oldest => (createdAt a <= createdAt b)%Z
  end.

Section JSONNotions.

Context {Num : Type}.
Variable numberIsTruthy : Num -> bool.
Variable JSON_parse : jsstring -> Thrown + OnJSON.Value Num.

(** A property of an object; any other value has none. *)
Definition field (key : string) (value : OnJSON.Value Num)
  : option (OnJSON.Value Num) :=
  match value with
  | OnJSON.VObject properties => OnJSON.lookup (str key) properties
  | _ => None
  end.

(** [String] cannot convert the value: it is an object with a [toString]
    property, or an array that holds, at any depth, such an object. *)
Fixpoint unprintable (value : OnJSON.Value Num) : bool :=
  match value with
  | OnJSON.VObject properties =>
      bool_decide (is_Some (OnJSON.lookup (str "toString") properties))
  | OnJSON.VArray elements => existsb unprintable elements
  | _ => false
  end.

(** What the generation cannot use a parsed reply for: one of the three
    fields is not there or falsy (a value that is not an object has none
    of them); the total size cannot be converted to a string; the
    inventory is not an array; an item is [null]; the size of an item
    cannot be converted to a string. *)
Inductive turned_down (value : OnJSON.Value Num) : Prop :=
| field_falsy (key : string) :
    key ∈ ["inventory"; "transcript"; "totalEstimatedSize"]%string ->
    OnJSON.truthy Num numberIsTruthy (field key value) = false ->
    turned_down value
| total_unprintable total :
    field "totalEstimatedSize" value = Some total ->
    unprintable total = true ->
    turned_down value
| inventory_not_array inventory :
    field "inventory" value = Some inventory ->
    (forall items, inventory <> OnJSON.VArray items) ->
    turned_down value
| item_null items :
    field "inventory" value = Some (OnJSON.VArray items) ->
    OnJSON.VNull ∈ items ->
    turned_down value
| item_size_unprintable items item size :
    field "inventory" value = Some (OnJSON.VArray items) ->
    item ∈ items ->
    field "estimatedSize" item = Some size ->
    unprintable size = true ->
    turned_down value.

(** What the generation cannot use a reply for: the call is rejected,
    the response has no text, the text is not JSON, or the value parsed is
    turned down. *)
Inductive unusable : OnJSON.ServiceReply -> Prop :=
| call_rejected reason : unusable (OnJSON.CallRejected reason)
| no_text : unusable (OnJSON.Replied None)
| not_JSON text thrown :
    JSON_parse (trim text) = inl thrown ->
    unusable (OnJSON.Replied (Some text))
| parsed_turned_down text value :
    JSON_parse (trim text) = inr value ->
    turned_down value ->
    unusable (OnJSON.Replied (Some text)).

End JSONNotions.

(** What [StoredText] keeps of a text that holds no list to read. *)
Definition storedTextOf (savedData : jsstring) : StoredText :=
  match savedData with
  | [] => EmptyText
  | _ :: _ => Malformed
  end.

(** A string literal of JSON. *)
Definition quoted (s : string) : jsstring := 34 :: str s ++ [34].

(** [JSON.parse] as far as the texts listed go: on a text that is not
    listed it throws. It stands for [JSON.parse] in the examples, where
    each text is listed with the value it denotes. *)
Definition parseListed {Num} (known : list (jsstring * OnJSON.Value Num))
    (text : jsstring) : Thrown + OnJSON.Value Num :=
  match OnJSON.lookup text known with
  | Some value => inr value
  | None => inl (ErrorObj (str "SyntaxError"))
  end.

(** [!!n] on a number that is an integer. *)
Definition integerIsTruthy (n : Z) : bool := negb (n =? 0)%Z.

(** The text of an object with an empty array for the inventory, the
    empty string for the transcript and [5 cu ft] for the total size. *)
Definition emptyTranscriptText : jsstring :=
  str "{" ++ quoted "inventory" ++ str ":[],"
  ++ quoted "transcript" ++ str ":" ++ quoted EmptyString ++ str ","
  ++ quoted "totalEstimatedSize" ++ str ":" ++ quoted "5 cu ft" ++ str "}".

Definition emptyTranscriptValue : OnJSON.Value Z :=
  OnJSON.VObject
    [ (str "inventory", OnJSON.VArray []);
      (str "transcript", OnJSON.VString []);
      (str "totalEstimatedSize", OnJSON.VString (str "5 cu ft")) ].

(** The text of an object with the string [sofa] for the inventory. *)
Definition stringInventoryText : jsstring :=
  str "{" ++ quoted "inventory" ++ str ":" ++ quoted "sofa" ++ str ","
  ++ quoted "transcript" ++ str ":" ++ quoted "A sofa." ++ str ","
  ++ quoted "totalEstimatedSize" ++ str ":" ++ quoted "50" ++ str "}".

Definition stringInventoryValue : OnJSON.Value Z :=
  OnJSON.VObject
    [ (str "inventory", OnJSON.VString (str "sofa"));
      (str "transcript", OnJSON.VString (str "A sofa."));
      (str "totalEstimatedSize", OnJSON.VString (str "50")) ].

(** The text of an object whose inventory is an array that holds [null]. *)
Definition nullItemText : jsstring :=
  str "{" ++ quoted "inventory" ++ str ":[null],"
  ++ quoted "transcript" ++ str ":" ++ quoted "A sofa." ++ str ","
  ++ quoted "totalEstimatedSize" ++ str ":" ++ quoted "50" ++ str "}".

Definition nullItemValue : OnJSON.Value Z :=
  OnJSON.VObject
    [ (str "inventory", OnJSON.VArray [OnJSON.VNull]);
      (str "transcript", OnJSON.VString (str "A sofa."));
      (str "totalEstimatedSize", OnJSON.VString (str "50")) ].

(** The text of an object whose inventory holds an item with a name and
    nothing else, and whose total size is the number [50]. *)
Definition bareItemText : jsstring :=
  str "{" ++ quoted "inventory" ++ str ":[{" ++ quoted "name" ++ str ":"
  ++ quoted "Sofa" ++ str "}],"
  ++ quoted "transcript" ++ str ":" ++ quoted "A sofa." ++ str ","
  ++ quoted "totalEstimatedSize" ++ str ":50}".

Definition bareItemValue : OnJSON.Value Z :=
  OnJSON.VObject
    [ (str "inventory",
       OnJSON.VArray [OnJSON.VObject [(str "name", OnJSON.VString (str "Sofa"))]]);
      (str "transcript", OnJSON.VString (str "A sofa."));
      (str "totalEstimatedSize", OnJSON.VNumber 50%Z) ].


(* ===================================================================== *)
(** ** Regular expressions: the matcher computes the language             *)
(* ===================================================================== *)

Section Matcher.

Lemma lang_eps_inv s : lang Eps s -> s = [].
Proof. inversion 1; reflexivity. Qed.

Lemma lang_cls_inv p s : lang (Cls p) s -> exists c, s = [c] /\ p c = true.
Proof. inversion 1; subst; eauto. Qed.

Lemma lang_cat_inv r1 r2 s :
  lang (Cat r1 r2) s ->
  exists s1 s2, s = s1 ++ s2 /\ lang r1 s1 /\ lang r2 s2.
Proof. inversion 1; subst; eauto. Qed.

Lemma lang_alt_inv r1 r2 s : lang (Alt r1 r2) s -> lang r1 s \/ lang r2 s.
Proof. inversion 1; subst; auto. Qed.

Lemma lang_void_inv s : ~ lang Void s.
Proof. inversion 1. Qed.

Lemma nullable_lang r : nullable r = true <-> lang r [].
Proof.
  induction r as [| |p|r1 IH1 r2 IH2|r1 IH1 r2 IH2|r IH]; simpl.
  - split; [discriminate | intros H; destruct (lang_void_inv _ H)].
  - split; [constructor | reflexivity].
  - split; [discriminate |].
    intros H. apply lang_cls_inv in H as (c & Hc & _). discriminate.
  - rewrite andb_true_iff, IH1, IH2. split.
    + intros [H1 H2]. apply (lang_cat _ _ [] []); assumption.
    + intros H. apply lang_cat_inv in H as (s1 & s2 & Heq & H1 & H2).
      symmetry in Heq. apply app_eq_nil in Heq as [-> ->].
      split; assumption.
  - rewrite orb_true_iff, IH1, IH2. split.
    + intros [H|H]; [apply lang_alt_l | apply lang_alt_r]; assumption.
    + apply lang_alt_inv.
  - split; [constructor | reflexivity].
Qed.

(** A non-empty match of a star starts with a non-empty match of its
    body. *)
Lemma lang_star_cons r c s :
  lang (Star r) (c :: s) ->
  exists s1 s2, s = s1 ++ s2 /\ lang r (c :: s1) /\ lang (Star r) s2.
Proof.
  intros H. remember (Star r) as r' eqn:Hr. remember (c :: s) as w eqn:Hw.
  revert c s Hw.
  induction H as [| | | | | |r0 s1 s2 H1 _ H2 IH2]; try discriminate.
  intros c s Hw. injection Hr as ->.
  destruct s1 as [|c1 s1]; simpl in Hw.
  - apply IH2; [reflexivity | assumption].
  - injection Hw as -> <-. exists s1, s2. repeat split; assumption.
Qed.

Lemma deriv_lang c r : forall s, lang (deriv c r) s <-> lang r (c :: s).
Proof.
  induction r as [| |p|r1 IH1 r2 IH2|r1 IH1 r2 IH2|r IH]; simpl; intros s.
  - split; intros H; destruct (lang_void_inv _ H).
  - split; intros H; [destruct (lang_void_inv _ H)|].
    apply lang_eps_inv in H. discriminate.
  - destruct (p c) eqn:Hp; split; intros H.
    + apply lang_eps_inv in H as ->. constructor; assumption.
    + apply lang_cls_inv in H as (c' & Heq & _).
      injection Heq as -> ->. constructor.
    + destruct (lang_void_inv _ H).
    + apply lang_cls_inv in H as (c' & Heq & Hc').
      injection Heq as -> ->. congruence.
  - assert (Hcat : forall t1 t2,
               lang (deriv c r1) t1 -> lang r2 t2 ->
               lang (Cat r1 r2) (c :: t1 ++ t2)).
    { intros t1 t2 H1 H2. apply (lang_cat _ _ (c :: t1) t2); [|assumption].
      apply IH1; assumption. }
    assert (Hinv : lang (Cat r1 r2) (c :: s) ->
               (exists t1 t2, s = t1 ++ t2 /\ lang (deriv c r1) t1 /\ lang r2 t2)
               \/ (lang r1 [] /\ lang (deriv c r2) s)).
    { intros H. apply lang_cat_inv in H as (s1 & s2 & Heq & H1 & H2).
      destruct s1 as [|c1 s1]; simpl in Heq.
      - right. subst s2. split; [assumption | apply IH2; assumption].
      - injection Heq as -> ->. left. exists s1, s2.
        repeat split; [apply IH1|]; assumption. }
    destruct (nullable r1) eqn:Hn; split; intros H.
    + apply lang_alt_inv in H as [H|H].
      * apply lang_cat_inv in H as (t1 & t2 & -> & H1 & H2).
        apply Hcat; assumption.
      * apply (lang_cat _ _ [] (c :: s)).
        -- apply nullable_lang; assumption.
        -- apply IH2; assumption.
    + destruct (Hinv H) as [(t1 & t2 & -> & H1 & H2)|[_ H2]].
      * apply lang_alt_l. constructor; assumption.
      * apply lang_alt_r; assumption.
    + apply lang_cat_inv in H as (t1 & t2 & -> & H1 & H2).
      apply Hcat; assumption.
    + destruct (Hinv H) as [(t1 & t2 & -> & H1 & H2)|[H1 _]].
      * constructor; assumption.
      * apply nullable_lang in H1. congruence.
  - split; intros H; apply lang_alt_inv in H as [H|H];
      solve [apply lang_alt_l, IH1; assumption
            |apply lang_alt_r, IH2; assumption].
  - split; intros H.
    + apply lang_cat_inv in H as (s1 & s2 & -> & H1 & H2).
      apply (lang_star_app _ (c :: s1) s2); [apply IH|]; assumption.
    + apply lang_star_cons in H as (s1 & s2 & -> & H1 & H2).
      constructor; [apply IH|]; assumption.
Qed.

Theorem accepts_lang r s : accepts r s = true <-> lang r s.
Proof.
  revert r. induction s as [|c s IH]; intros r; simpl.
  - apply nullable_lang.
  - rewrite IH. apply deriv_lang.
Qed.

End Matcher.

(* ===================================================================== *)
(** ** What the three tests of [ensureUnits] decide                       *)
(* ===================================================================== *)

Section Tests.

Lemma lang_star_anychar s : lang (Star anychar) s.
Proof.
  induction s as [|c s IH]; [constructor|].
  apply (lang_star_app _ [c] s); [constructor; reflexivity | assumption].
Qed.

(** An unanchored test looks for a matching substring. *)
Lemma test_search p s :
  test (mkRegExp false p false) s = true
  <-> exists pre m suf, s = pre ++ m ++ suf /\ lang p m.
Proof.
  unfold test; simpl. rewrite accepts_lang. split.
  - intros H. apply lang_cat_inv in H as (pre & rest & -> & _ & H).
    apply lang_cat_inv in H as (m & suf & -> & Hm & _). eauto.
  - intros (pre & m & suf & -> & Hm).
    constructor; [apply lang_star_anychar|].
    constructor; [assumption | apply lang_star_anychar].
Qed.

(** A test anchored at both ends matches the whole string. *)
Lemma test_whole p s : test (mkRegExp true p true) s = true <-> lang p s.
Proof.
  unfold test; simpl. rewrite accepts_lang. split.
  - intros H. apply lang_cat_inv in H as (pre & rest & -> & Hpre & H).
    apply lang_eps_inv in Hpre as ->.
    apply lang_cat_inv in H as (m & suf & -> & Hm & Hsuf).
    apply lang_eps_inv in Hsuf as ->. simpl. rewrite app_nil_r. assumption.
  - intros H. apply (lang_cat _ _ [] s); [constructor|].
    rewrite <- (app_nil_r s). constructor; [assumption | constructor].
Qed.

Lemma fits_front_spec form : forall s,
  fits_front form s = true
  <-> exists m suf, s = m ++ suf /\ Forall2 fitsP m form.
Proof.
  induction form as [|e form IH]; intros s; simpl.
  - split; [|reflexivity]. intros _. exists [], s. split; [reflexivity | constructor].
  - destruct s as [|x s].
    + split; [discriminate|]. intros (m & suf & Heq & Hm).
      inversion Hm; subst. discriminate.
    + rewrite andb_true_iff, IH. split.
      * intros (Hx & m & suf & -> & Hm). exists (x :: m), suf.
        split; [reflexivity | constructor; assumption].
      * intros (m & suf & Heq & Hm). inversion Hm as [|x' ? m' ? Hx Hm']; subst.
        injection Heq as -> ->. split; [assumption | eauto].
Qed.

Lemma occurs_spec form : forall s,
  occurs form s = true
  <-> exists pre m suf, s = pre ++ m ++ suf /\ Forall2 fitsP m form.
Proof.
  induction s as [|c s IH]; simpl; rewrite orb_true_iff, fits_front_spec.
  - split.
    + intros [(m & suf & Heq & Hm)|Hf]; [|discriminate].
      exists [], m, suf. split; assumption.
    + intros (pre & m & suf & Heq & Hm). left.
      destruct pre; [|discriminate]. exists m, suf. split; assumption.
  - rewrite IH. split.
    + intros [(m & suf & Heq & Hm)|(pre & m & suf & -> & Hm)].
      * exists [], m, suf. split; assumption.
      * exists (c :: pre), m, suf. split; [reflexivity | assumption].
    + intros (pre & m & suf & Heq & Hm). destruct pre as [|c' pre].
      * left. exists m, suf. split; assumption.
      * right. injection Heq as -> ->. exists pre, m, suf.
        split; [reflexivity | assumption].
Qed.

Lemma lang_cat_cons p r c s :
  p c = true -> lang r s -> lang (Cat (Cls p) r) (c :: s).
Proof. intros Hc Hs. apply (lang_cat _ _ [c] s); [constructor|]; assumption. Qed.

Ltac lang_inv :=
  repeat match goal with
    | H : lang Eps _ |- _ => apply lang_eps_inv in H; subst
    | H : lang (Cls _) _ |- _ => apply lang_cls_inv in H as (? & -> & ?)
    | H : lang (Cat _ _) _ |- _ =>
        apply lang_cat_inv in H as (? & ? & -> & ? & ?)
    | H : lang (Alt _ _) _ |- _ => apply lang_alt_inv in H as [?|?]
    end.

Ltac lang_word :=
  repeat (apply lang_cat_cons; [assumption|]); apply lang_eps.

Ltac fits_all :=
  unfold letters; simpl; repeat (constructor; [assumption|]); constructor.

(** The pattern of [unitsRe] denotes the six forms of a unit token. *)
Lemma lang_units m :
  lang (pattern unitsRe) m
  <-> exists form, In form unit_forms /\ Forall2 fitsP m form.
Proof.
  split.
  - intros H. unfold unitsRe, Opt in H. cbn [pattern word_i str] in H.
    unfold lit_i in H. lang_inv.
    + exists (letters "cubic"). split; [simpl; tauto | fits_all].
    + exists (letters "cu" ++ [None] ++ letters "ft").
      split; [simpl; tauto | fits_all].
    + exists (letters "cuft"). split; [simpl; tauto | fits_all].
    + exists (letters "ft" ++ [None; Some 179]).
      split; [simpl; tauto | fits_all].
    + exists (letters "ft" ++ [Some 179]). split; [simpl; tauto | fits_all].
    + exists (letters "feet"). split; [simpl; tauto | fits_all].
  - intros (form & Hin & Hm). unfold unitsRe, Opt.
    cbn [pattern word_i str]. unfold lit_i.
    simpl in Hin. destruct Hin as [<-|[<-|[<-|[<-|[<-|[<-|[]]]]]]];
      cbn [letters str map app] in Hm;
      repeat match goal with
        | H : Forall2 _ _ (_ :: _) |- _ =>
            inversion H; subst; clear H
        | H : Forall2 _ _ [] |- _ => inversion H; subst; clear H
        end.
    + apply lang_alt_l. lang_word.
    + apply lang_alt_r, lang_alt_l.
      match goal with |- lang _ [?a; ?b; ?c; ?d] =>
        apply (lang_cat _ _ [a; b] [c; d]); [lang_word|];
        apply (lang_cat _ _ [] [c; d]); [apply lang_alt_r, lang_eps | lang_word]
      end.
    + apply lang_alt_r, lang_alt_l.
      match goal with |- lang _ [?a; ?b; ?w; ?c; ?d] =>
        apply (lang_cat _ _ [a; b] [w; c; d]); [lang_word|];
        apply (lang_cat _ _ [w] [c; d]);
          [apply lang_alt_l, lang_cls; assumption | lang_word]
      end.
    + apply lang_alt_r, lang_alt_r, lang_alt_l.
      match goal with |- lang _ [?a; ?b; ?c] =>
        apply (lang_cat _ _ [a; b] [c]); [lang_word|];
        apply (lang_cat _ _ [] [c]);
          [apply lang_alt_r, lang_eps | apply lang_cls; assumption]
      end.
    + apply lang_alt_r, lang_alt_r, lang_alt_l.
      match goal with |- lang _ [?a; ?b; ?w; ?c] =>
        apply (lang_cat _ _ [a; b] [w; c]); [lang_word|];
        apply (lang_cat _ _ [w] [c]);
          [apply lang_alt_l, lang_cls; assumption | apply lang_cls; assumption]
      end.
    + apply lang_alt_r, lang_alt_r, lang_alt_r. lang_word.
Qed.

(** The first test of [ensureUnits]: a unit token occurs in the string. *)
Theorem test_unitsRe s : test unitsRe s = has_unit_token s.
Proof.
  apply eq_true_iff_eq. change unitsRe with (mkRegExp false (pattern unitsRe) false).
  rewrite test_search. unfold has_unit_token. rewrite existsb_exists. split.
  - intros (pre & m & suf & -> & Hm). apply lang_units in Hm as (form & Hin & Hm).
    exists form. split; [assumption|]. apply occurs_spec. eauto.
  - intros (form & Hin & Hocc). apply occurs_spec in Hocc as (pre & m & suf & -> & Hm).
    exists pre, m, suf. split; [reflexivity|]. apply lang_units. eauto.
Qed.

(** The test [/\d/]: a digit occurs in the string. *)
Theorem test_digitRe s : test digitRe s = has_digit s.
Proof.
  apply eq_true_iff_eq. unfold digitRe, has_digit.
  rewrite test_search, existsb_exists. split.
  - intros (pre & m & suf & -> & Hm). apply lang_cls_inv in Hm as (c & -> & Hc).
    exists c. split; [|assumption]. apply in_or_app. right. left. reflexivity.
  - intros (c & Hin & Hc). apply in_split in Hin as (pre & suf & ->).
    exists pre, [c], suf. split; [reflexivity | constructor; assumption].
Qed.

(** A string the test [/^\d+(\.\d+)?$/] accepts contains a digit: the
    first disjunct of the second test adds nothing to the second. *)
Lemma test_numberRe_digit s : test numberRe s = true -> has_digit s = true.
Proof.
  unfold numberRe, Plus. rewrite test_whole. intros H.
  apply lang_cat_inv in H as (s1 & s2 & -> & H1 & _).
  apply lang_cat_inv in H1 as (d & s3 & -> & Hd & _).
  apply lang_cls_inv in Hd as (c & -> & Hc).
  unfold has_digit. simpl. rewrite Hc. reflexivity.
Qed.

(** [ensureUnits] by what its tests decide. *)
Theorem ensureUnits_unfold size :
  ensureUnits size =
    if has_unit_token (trim size) then trim size
    else if has_digit (trim size) then trim size ++ str " cubic feet"
         else trim size.
Proof.
  unfold ensureUnits. cbv zeta. rewrite test_unitsRe, test_digitRe.
  destruct (has_unit_token (trim size)); [reflexivity|].
  destruct (test numberRe (trim size)) eqn:Hnum; [|reflexivity].
  rewrite (test_numberRe_digit _ Hnum). reflexivity.
Qed.

End Tests.

(* ===================================================================== *)
(** ** [trim]                                                             *)
(* ===================================================================== *)

Section Trim.

Lemma trimStart_headed s : headed (trimStart s).
Proof.
  induction s as [|c s IH]; simpl; [exact I|].
  destruct (is_space c) eqn:Hc; [exact IH | exact Hc].
Qed.

Lemma trimStart_id s : headed s -> trimStart s = s.
Proof. destruct s as [|c s]; simpl; [reflexivity|]. intros ->. reflexivity. Qed.

Lemma trimStart_split s :
  exists ws, s = ws ++ trimStart s /\ blank ws = true.
Proof.
  induction s as [|c s (ws & IH & Hws)]; simpl.
  - exists []. split; reflexivity.
  - destruct (is_space c) eqn:Hc.
    + exists (c :: ws). simpl. rewrite Hc, Hws, <- IH. split; reflexivity.
    + exists []. split; reflexivity.
Qed.

Lemma blank_rev s : blank (rev s) = blank s.
Proof.
  unfold blank. induction s as [|c s IH]; simpl; [reflexivity|].
  rewrite forallb_app, IH. simpl. rewrite andb_true_r. apply andb_comm.
Qed.

Lemma trimEnd_split s :
  exists ws, s = trimEnd s ++ ws /\ blank ws = true.
Proof.
  unfold trimEnd. destruct (trimStart_split (rev s)) as (ws & Heq & Hws).
  exists (rev ws). rewrite blank_rev. split; [|assumption].
  rewrite <- rev_app_distr, <- Heq, rev_involutive. reflexivity.
Qed.

Lemma trimEnd_headed s : headed s -> headed (trimEnd s).
Proof.
  intros Hs. destruct (trimEnd_split s) as (ws & Heq & _).
  destruct (trimEnd s) as [|c r]; [exact I|].
  rewrite Heq in Hs. exact Hs.
Qed.

Lemma trim_headed s : headed (trim s).
Proof. apply trimEnd_headed, trimStart_headed. Qed.

Lemma trimEnd_idem s : trimEnd (trimEnd s) = trimEnd s.
Proof.
  unfold trimEnd. rewrite rev_involutive.
  rewrite (trimStart_id (trimStart _)) by apply trimStart_headed.
  reflexivity.
Qed.

Theorem trim_idem s : trim (trim s) = trim s.
Proof.
  unfold trim at 1. rewrite trimStart_id by apply trim_headed.
  apply trimEnd_idem.
Qed.

(** [trim] only takes white space away, in front and behind. *)
Lemma trim_split s :
  exists ws1 ws2,
    s = ws1 ++ trim s ++ ws2 /\ blank ws1 = true /\ blank ws2 = true.
Proof.
  destruct (trimStart_split s) as (ws1 & H1 & Hws1).
  destruct (trimEnd_split (trimStart s)) as (ws2 & H2 & Hws2).
  exists ws1, ws2. unfold trim. rewrite <- H2, <- H1. auto.
Qed.

(** A string of white space trims to the empty string, and only such
    a string does. *)
Theorem trim_blank s : trim s = [] <-> blank s = true.
Proof.
  split.
  - intros Ht. destruct (trim_split s) as (ws1 & ws2 & Heq & H1 & H2).
    rewrite Heq, Ht. unfold blank in *. rewrite forallb_app, H1. exact H2.
  - intros Hs. destruct (trim_split s) as (ws1 & ws2 & Heq & _ & _).
    pose proof (trim_headed s) as Hh.
    destruct (trim s) as [|c r]; [reflexivity|]. simpl in Hh.
    rewrite Heq in Hs. unfold blank in Hs.
    rewrite forallb_app in Hs. simpl in Hs. rewrite Hh in Hs.
    rewrite andb_false_r in Hs. discriminate.
Qed.

(** Nothing is trimmed from a string that neither starts nor ends with
    white space. *)
Lemma trim_id s : headed s -> headed (rev s) -> trim s = s.
Proof.
  intros H1 H2. unfold trim, trimEnd.
  rewrite (trimStart_id s H1), (trimStart_id _ H2). apply rev_involutive.
Qed.

(** White space in front of a code unit that is not white space is all
    that [trimStart] removes; likewise behind for [trimEnd]. *)
Lemma trimStart_keeps pre x r :
  is_space x = false ->
  exists pre', trimStart (pre ++ x :: r) = pre' ++ x :: r.
Proof.
  intros Hx. induction pre as [|c pre (pre' & IH)]; simpl.
  - rewrite Hx. exists []. reflexivity.
  - destruct (is_space c); [exists pre'; exact IH | exists (c :: pre); reflexivity].
Qed.

Lemma trimEnd_keeps r x suf :
  is_space x = false ->
  exists suf', trimEnd (r ++ x :: suf) = r ++ x :: suf'.
Proof.
  intros Hx. unfold trimEnd.
  rewrite rev_app_distr. simpl. rewrite <- app_assoc. simpl.
  destruct (trimStart_keeps (rev suf) x (rev r) Hx) as (pre' & ->).
  exists (rev pre'). rewrite rev_app_distr. simpl.
  rewrite rev_involutive, <- app_assoc. reflexivity.
Qed.

(** A substring that starts and ends with code units that are not white
    space survives [trim]. *)
Lemma trim_keeps pre x mid y suf :
  is_space x = false -> is_space y = false ->
  exists pre' suf',
    trim (pre ++ (x :: mid ++ [y]) ++ suf) = pre' ++ (x :: mid ++ [y]) ++ suf'.
Proof.
  intros Hx Hy. unfold trim. simpl.
  destruct (trimStart_keeps pre x ((mid ++ [y]) ++ suf) Hx) as (pre' & ->).
  rewrite <- app_assoc. simpl.
  replace (pre' ++ x :: mid ++ y :: suf) with ((pre' ++ x :: mid) ++ y :: suf)
    by (rewrite <- app_assoc; reflexivity).
  destruct (trimEnd_keeps (pre' ++ x :: mid) y suf Hy) as (suf' & ->).
  exists pre', suf'. rewrite <- !app_assoc. reflexivity.
Qed.

Lemma trim_keeps_one pre x suf :
  is_space x = false ->
  exists pre' suf', trim (pre ++ x :: suf) = pre' ++ x :: suf'.
Proof.
  intros Hx. unfold trim.
  destruct (trimStart_keeps pre x suf Hx) as (pre' & ->).
  destruct (trimEnd_keeps pre' x suf Hx) as (suf' & ->).
  exists pre', suf'. reflexivity.
Qed.

End Trim.

(* ===================================================================== *)
(** ** [ensureUnits]                                                      *)
(* ===================================================================== *)

Section EnsureUnits.

Lemma space_fold_case x : is_space x = true -> fold_case x = x.
Proof.
  unfold is_space, fold_case. intros Hx.
  destruct ((97 <=? x) && (x <=? 122)) eqn:Hl; [|reflexivity].
  exfalso.
  rewrite !orb_true_iff, !andb_true_iff, !N.leb_le, !N.eqb_eq in Hx.
  rewrite andb_true_iff, !N.leb_le in Hl. lia.
Qed.

(** What fits a letter of a form, or U+00B3, is not white space. *)
Lemma fits_not_space x c :
  fits x (Some c) = true -> is_space (fold_case c) = false ->
  is_space x = false.
Proof.
  simpl. intros Hfit Hc. apply N.eqb_eq in Hfit.
  destruct (is_space x) eqn:Hx; [|reflexivity].
  rewrite (space_fold_case x Hx) in Hfit. congruence.
Qed.

Lemma digit_not_space c : is_digit c = true -> is_space c = false.
Proof.
  unfold is_digit, is_space. intros Hd.
  rewrite andb_true_iff, !N.leb_le in Hd.
  destruct (_ || _) eqn:Hs in |- *; [|reflexivity]. exfalso.
  rewrite !orb_true_iff, !andb_true_iff, !N.leb_le, !N.eqb_eq in Hs. lia.
Qed.

(** A unit token starts and ends with code units that are not white
    space. *)
Lemma unit_token_ends form m :
  In form unit_forms -> Forall2 fitsP m form ->
  exists x mid y,
    m = x :: mid ++ [y] /\ is_space x = false /\ is_space y = false.
Proof.
  intros Hin Hm. simpl in Hin.
  destruct Hin as [<-|[<-|[<-|[<-|[<-|[<-|[]]]]]]];
    cbn [letters str map app] in Hm;
    repeat match goal with
      | H : Forall2 _ _ (_ :: _) |- _ => inversion H; subst; clear H
      | H : Forall2 _ _ [] |- _ => inversion H; subst; clear H
      end;
    match goal with
    | |- exists x mid y, [?a; ?b; ?c] = _ /\ _ => exists a, [b], c
    | |- exists x mid y, [?a; ?b; ?c; ?d] = _ /\ _ => exists a, [b; c], d
    | |- exists x mid y, [?a; ?b; ?c; ?d; ?e] = _ /\ _ =>
        exists a, [b; c; d], e
    end;
    (split; [reflexivity|]);
    split; eapply fits_not_space; try eassumption; reflexivity.
Qed.

(** Trimming neither adds nor removes a unit token or a digit. *)
Theorem has_unit_token_trim s : has_unit_token (trim s) = has_unit_token s.
Proof.
  apply eq_true_iff_eq. unfold has_unit_token. rewrite !existsb_exists.
  split; intros (form & Hin & Hocc); exists form; (split; [assumption|]);
    apply occurs_spec in Hocc as (pre & m & suf & Heq & Hm); apply occurs_spec.
  - destruct (trim_split s) as (ws1 & ws2 & Hs & _ & _).
    exists (ws1 ++ pre), m, (suf ++ ws2). split; [|assumption].
    rewrite Hs, Heq, <- !app_assoc. reflexivity.
  - destruct (unit_token_ends form m Hin Hm) as (x & mid & y & -> & Hx & Hy).
    destruct (trim_keeps pre x mid y suf Hx Hy) as (pre' & suf' & Ht).
    exists pre', (x :: mid ++ [y]), suf'. split; [|assumption].
    rewrite Heq. exact Ht.
Qed.

Theorem has_digit_trim s : has_digit (trim s) = has_digit s.
Proof.
  apply eq_true_iff_eq. unfold has_digit. rewrite !existsb_exists.
  split; intros (c & Hin & Hc); exists c; (split; [|assumption]).
  - destruct (trim_split s) as (ws1 & ws2 & Hs & _ & _).
    rewrite Hs. apply in_or_app. right. apply in_or_app. left. assumption.
  - apply in_split in Hin as (pre & suf & ->).
    destruct (trim_keeps_one pre c suf (digit_not_space c Hc)) as (pre' & suf' & ->).
    apply in_or_app. right. left. reflexivity.
Qed.

(** [ensureUnits] by what the string contains. *)
Theorem ensureUnits_by_content size :
  ensureUnits size =
    if has_unit_token size then trim size
    else if has_digit size then trim size ++ str " cubic feet"
         else trim size.
Proof.
  rewrite ensureUnits_unfold, has_unit_token_trim, has_digit_trim.
  reflexivity.
Qed.

(** A result with the suffix appended bears a unit and has nothing left
    to trim. *)
Lemma suffixed_has_unit t : has_unit_token (t ++ str " cubic feet") = true.
Proof.
  unfold has_unit_token. apply existsb_exists.
  exists (letters "cubic"). split; [simpl; tauto|].
  apply occurs_spec. exists (t ++ str " "), (str "cubic"), (str " feet").
  split; [rewrite <- app_assoc; reflexivity|].
  unfold letters. simpl. repeat constructor.
Qed.

Lemma suffixed_trimmed t :
  has_digit t = true -> headed t -> trim (t ++ str " cubic feet") = t ++ str " cubic feet".
Proof.
  intros Hd Hh. apply trim_id.
  - destruct t as [|c r]; [discriminate | exact Hh].
  - rewrite rev_app_distr. reflexivity.
Qed.

Theorem ensureUnits_idempotent size :
  ensureUnits (ensureUnits size) = ensureUnits size.
Proof.
  rewrite (ensureUnits_unfold size).
  destruct (has_unit_token (trim size)) eqn:Hu;
    [|destruct (has_digit (trim size)) eqn:Hd].
  - rewrite ensureUnits_unfold, trim_idem, Hu. reflexivity.
  - rewrite ensureUnits_unfold, suffixed_trimmed, suffixed_has_unit;
      [reflexivity | assumption | apply trim_headed].
  - rewrite ensureUnits_unfold, trim_idem, Hu, Hd. reflexivity.
Qed.

End EnsureUnits.

(** C1, as the code has it. [ensureUnits] works on the trimmed string. Its
    first test holds exactly when the string contains a unit token, and the
    trimmed string is then returned. Its second test holds exactly when the
    string contains a digit, purely numeric or not, and the trimmed string
    with [" cubic feet"] appended is then returned. Otherwise the trimmed
    string is returned. *)
Theorem ensureUnits_three_way (size : jsstring) :
  test unitsRe (trim size) = has_unit_token size
  /\ test numberRe (trim size) || test digitRe (trim size) = has_digit size
  /\ ensureUnits size =
       if has_unit_token size then trim size
       else if has_digit size then trim size ++ str " cubic feet"
            else trim size.
Proof.
  split; [|split].
  - rewrite test_unitsRe. apply has_unit_token_trim.
  - rewrite test_digitRe, has_digit_trim.
    destruct (test numberRe (trim size)) eqn:Hnum; [|reflexivity].
    apply test_numberRe_digit in Hnum. rewrite has_digit_trim in Hnum.
    rewrite Hnum. reflexivity.
  - apply ensureUnits_by_content.
Qed.

(** C1 as stated fails on a digit mixed with other text: ["approx 5"] has
    no unit token and is not purely numeric, and yet it is not returned
    unchanged: the suffix is appended. *)
Lemma ensureUnits_digit_in_text :
  ensureUnits (str "approx 5") = str "approx 5 cubic feet"
  /\ ~ (has_unit_token (str "approx 5") = false ->
        test numberRe (str "approx 5") = false ->
        ensureUnits (str "approx 5") = str "approx 5").
Proof.
  split; [reflexivity|]. intros H.
  specialize (H eq_refl eq_refl). vm_compute in H. discriminate.
Qed.

(** C7, as the code has it. Normalizing a unit-bearing string returns it
    trimmed, so unchanged when it neither starts nor ends with white space;
    ["12"] becomes ["12 cubic feet"]; ["12 cubic feet"] stays as it is; and
    normalizing twice is normalizing once. *)
Theorem ensureUnits_normal_form (s : jsstring) :
  (has_unit_token s = true -> ensureUnits s = trim s)
  /\ (has_unit_token s = true -> trim s = s -> ensureUnits s = s)
  /\ ensureUnits (str "12") = str "12 cubic feet"
  /\ ensureUnits (str "12 cubic feet") = str "12 cubic feet"
  /\ ensureUnits (ensureUnits s) = ensureUnits s.
Proof.
  assert (Hunit : has_unit_token s = true -> ensureUnits s = trim s).
  { intros Hu. rewrite ensureUnits_by_content, Hu. reflexivity. }
  split; [exact Hunit|]. split; [|split; [|split]].
  - intros Hu Ht. rewrite (Hunit Hu). exact Ht.
  - reflexivity.
  - reflexivity.
  - apply ensureUnits_idempotent.
Qed.

(** The unit-bearing example of the data model, which has no white space
    around it, comes back as it is. *)
Lemma ensureUnits_normal_form_witness :
  has_unit_token (str "approx. 2 cubic feet") = true
  /\ trim (str "approx. 2 cubic feet") = str "approx. 2 cubic feet"
  /\ ensureUnits (str "approx. 2 cubic feet") = str "approx. 2 cubic feet".
Proof.
  split; [reflexivity|]. split; [reflexivity|].
  apply (ensureUnits_normal_form (str "approx. 2 cubic feet"));
    reflexivity.
Defined.

(** C7 as stated fails on a unit-bearing string with white space around
    it: the string is not returned unchanged, its white space is gone. *)
Lemma ensureUnits_padded_unit_string :
  has_unit_token (str " 12 cubic feet ") = true
  /\ ensureUnits (str " 12 cubic feet ") = str "12 cubic feet"
  /\ ensureUnits (str " 12 cubic feet ") <> str " 12 cubic feet ".
Proof. split; [reflexivity|]. split; [reflexivity | discriminate]. Qed.

(* ===================================================================== *)
(** ** [generateInventoryFromDescription]                                 *)
(* ===================================================================== *)

Section Generate.

Lemma tryGenerate_parsed p :
  match tryGenerate (Parsed p) with
  | inl e => e = missingFieldsError /\ lacks_field p
  | inr d =>
      exists items script total,
        parsed_inventory p = Some items
        /\ parsed_transcript p = Some script /\ script <> []
        /\ parsed_totalEstimatedSize p = Some total /\ total <> []
        /\ transcript d = script
        /\ totalEstimatedSize d = ensureUnits total
        /\ Forall2 same_but_size (inventory d) items
  end.
Proof.
  unfold tryGenerate, lacks_field.
  destruct p as [[items|] [[|c script]|] [[|c' total]|]]; simpl;
    try (split; [reflexivity | tauto]).
  exists items, (c :: script), (c' :: total).
  repeat (split; [first [reflexivity | discriminate]|]).
  induction items as [|item items IH]; simpl; constructor; [|exact IH].
  repeat split.
Qed.

(** Whatever goes wrong, the promise is rejected with the one error of
    the [catch] block. *)
Lemma generate_rejection reply e :
  generateInventoryFromDescription reply = inl e -> e = generationError.
Proof.
  unfold generateInventoryFromDescription.
  destruct (tryGenerate reply); [|discriminate]. congruence.
Qed.

End Generate.

(* ===================================================================== *)
(** ** [generateInventoryFromDescription], from the text of the reply     *)
(* ===================================================================== *)

Section GenerateOnJSON.

Context {Num : Type}.
Variable numberIsTruthy : Num -> bool.
Variable numberToString : Num -> jsstring.
Variable JSON_parse : jsstring -> Thrown + OnJSON.Value Num.

#[local] Abbreviation Value := (OnJSON.Value Num).
#[local] Abbreviation toString := (OnJSON.toString Num numberToString).
#[local] Abbreviation ensureUnitsOf := (OnJSON.ensureUnits Num numberToString).
#[local] Abbreviation withUnits := (OnJSON.withUnits Num numberToString).
#[local] Abbreviation truthy := (OnJSON.truthy Num numberIsTruthy).

(** Induction on a value, its elements and the values of its properties
    included. *)
Lemma Value_nested_ind (P : Value -> Prop) :
  P OnJSON.VNull ->
  (forall b, P (OnJSON.VBool b)) ->
  (forall n, P (OnJSON.VNumber n)) ->
  (forall s, P (OnJSON.VString s)) ->
  (forall elements, Forall P elements -> P (OnJSON.VArray elements)) ->
  (forall properties, P (OnJSON.VObject properties)) ->
  forall value, P value.
Proof.
  intros Hnull Hbool Hnumber Hstring Harray Hobject.
  fix IH 1. intros [ |b|n|s|elements|properties].
  - exact Hnull.
  - apply Hbool.
  - apply Hnumber.
  - apply Hstring.
  - apply Harray.
    exact ((fix all (l : list Value) : Forall P l :=
              match l with
              | [] => @List.Forall_nil _ P
              | x :: rest => @List.Forall_cons _ P x rest (IH x) (all rest)
              end) elements).
  - apply Hobject.
Qed.

Lemma toString_array_cons x rest :
  toString (OnJSON.VArray (x :: rest))
  = OnJSON.andThen
      (match x with
       | OnJSON.VNull => inr []
       | _ => toString x
       end)
      (fun first =>
         match rest with
         | [] => inr first
         | _ :: _ =>
             OnJSON.andThen (toString (OnJSON.VArray rest))
               (fun others => inr (first ++ 44 :: others))
         end).
Proof. destruct rest; reflexivity. Qed.

(** [String] throws on the values that cannot be converted, and on no
    other. *)
Lemma toString_unprintable value :
  match toString value with
  | inl _ => unprintable value = true
  | inr _ => unprintable value = false
  end.
Proof.
  induction value as [ |b|n|s|elements IH|properties] using Value_nested_ind;
    try reflexivity.
  - destruct b; reflexivity.
  - induction IH as [|x rest Hx _ IHrest]; [reflexivity|].
    rewrite toString_array_cons.
    change (unprintable (OnJSON.VArray (x :: rest)))
      with (unprintable x || unprintable (OnJSON.VArray rest)).
    assert (Hfirst : match (match x with
                            | OnJSON.VNull => inr []
                            | _ => toString x
                            end) with
                     | inl _ => unprintable x = true
                     | inr _ => unprintable x = false
                     end).
    { destruct x; exact Hx. }
    destruct rest as [|y rest].
    + destruct (match x with OnJSON.VNull => inr [] | _ => toString x end);
        unfold OnJSON.andThen; cbv beta iota in Hfirst; rewrite Hfirst;
        reflexivity.
    + remember (toString (OnJSON.VArray (y :: rest))) as joined.
      remember (unprintable (OnJSON.VArray (y :: rest))) as later.
      destruct (match x with OnJSON.VNull => inr [] | _ => toString x end);
        unfold OnJSON.andThen; cbv beta iota in Hfirst; rewrite Hfirst;
        [reflexivity|].
      destruct joined; exact IHrest.
  - change (toString (OnJSON.VObject properties))
      with (match OnJSON.lookup (str "toString") properties with
            | Some _ => inl OnJSON.typeError
            | None => inr (str "[object Object]")
            end : Thrown + jsstring).
    change (unprintable (OnJSON.VObject properties))
      with (bool_decide (is_Some (OnJSON.lookup (str "toString") properties))).
    destruct (OnJSON.lookup (str "toString") properties) as [method|].
    + apply bool_decide_eq_true. eauto.
    + apply bool_decide_eq_false. intros [method H]. discriminate.
Qed.

Lemma mapThrowing_inl {A B} (f : A -> Thrown + B) l thrown :
  OnJSON.mapThrowing f l = inl thrown ->
  exists x, x ∈ l /\ f x = inl thrown.
Proof.
  induction l as [|x rest IH]; simpl; [discriminate|].
  destruct (f x) as [e|y] eqn:Hx; simpl.
  - intros [= ->]. exists x. split; [left | exact Hx].
  - destruct (OnJSON.mapThrowing f rest) as [e|others]; simpl;
      [|discriminate].
    intros [= ->]. destruct (IH eq_refl) as (x' & Hin & Hx').
    exists x'. split; [right; exact Hin | exact Hx'].
Qed.

Lemma mapThrowing_inr {A B} (f : A -> Thrown + B) l l' :
  OnJSON.mapThrowing f l = inr l' ->
  Forall2 (fun x y => f x = inr y) l l'.
Proof.
  revert l'. induction l as [|x rest IH]; simpl; intros l'.
  - intros [= <-]. constructor.
  - destruct (f x) as [e|y] eqn:Hx; simpl; [discriminate|].
    destruct (OnJSON.mapThrowing f rest) as [e|others]; simpl;
      [discriminate|].
    intros [= <-]. constructor; [exact Hx | apply IH; reflexivity].
Qed.

Lemma mapThrowing_inr_elem {A B} (f : A -> Thrown + B) l l' x :
  OnJSON.mapThrowing f l = inr l' -> x ∈ l -> exists y, f x = inr y.
Proof.
  intros Hmap Hin. apply mapThrowing_inr in Hmap.
  induction Hmap as [|x0 y0 rest rest' Hx0 _ IH]; [inversion Hin|].
  apply elem_of_cons in Hin as [->|Hin]; [eauto | exact (IH Hin)].
Qed.

(** [ensureUnits] throws when [String] does. *)
Lemma ensureUnitsOf_throws size :
  match ensureUnitsOf size with
  | inl _ => exists value, size = Some value /\ unprintable value = true
  | inr _ => forall value, size = Some value -> unprintable value = false
  end.
Proof.
  unfold OnJSON.ensureUnits. destruct size as [value|]; simpl.
  - pose proof (toString_unprintable value) as H.
    destruct (toString value); simpl; [eauto|].
    intros value' [= <-]. exact H.
  - intros value [=].
Qed.

Lemma get_field key item :
  item <> OnJSON.VNull ->
  OnJSON.get Num (str key) item = inr (field key item).
Proof. destruct item; intros H; first [reflexivity | contradiction]. Qed.

(** The callback of the [map] throws on [null] and on an item whose size
    cannot be converted. *)
Lemma withUnits_throws item :
  match withUnits item with
  | inl _ =>
      item = OnJSON.VNull
      \/ exists size, field "estimatedSize" item = Some size
                      /\ unprintable size = true
  | inr _ =>
      item <> OnJSON.VNull
      /\ forall size, field "estimatedSize" item = Some size ->
           unprintable size = false
  end.
Proof.
  unfold OnJSON.withUnits.
  assert (Hcases : item = OnJSON.VNull \/ item <> OnJSON.VNull)
    by (destruct item; first [left; reflexivity | right; discriminate]).
  destruct Hcases as [->|Hitem]; [left; reflexivity|].
  rewrite (get_field "estimatedSize" item Hitem). unfold OnJSON.andThen at 1.
  pose proof (ensureUnitsOf_throws (field "estimatedSize" item)) as H.
  destruct (ensureUnitsOf (field "estimatedSize" item)); simpl.
  - right. exact H.
  - split; [exact Hitem | exact H].
Qed.

#[local] Abbreviation tryGenerateOn :=
  (OnJSON.tryGenerate Num numberIsTruthy numberToString JSON_parse).

(** The [try] block throws on the values that are turned down, and on no
    other. *)
Lemma tryGenerate_value text value :
  JSON_parse (trim text) = inr value ->
  match tryGenerateOn (OnJSON.Replied (Some text)) with
  | inl _ => turned_down numberIsTruthy value
  | inr _ => ~ turned_down numberIsTruthy value
  end.
Proof.
  intros Hparse. unfold OnJSON.tryGenerate. rewrite Hparse.
  unfold OnJSON.andThen at 1.
  assert (Hnone : forall v : Value,
            (forall properties, v <> OnJSON.VObject properties) ->
            turned_down numberIsTruthy v).
  { intros v Hv. apply (field_falsy _ _ "inventory"); [left|].
    destruct v; try reflexivity. destruct (Hv properties eq_refl). }
  destruct value as [ |b|n|s|elements|properties];
    try (apply Hnone; discriminate).
  change (OnJSON.lookup (str "inventory") properties)
    with (field "inventory" (OnJSON.VObject properties)).
  change (OnJSON.lookup (str "transcript") properties)
    with (field "transcript" (OnJSON.VObject properties)).
  change (OnJSON.lookup (str "totalEstimatedSize") properties)
    with (field "totalEstimatedSize" (OnJSON.VObject properties)).
  set (value := OnJSON.VObject properties).
  destruct (truthy (field "inventory" value)) eqn:Hinventory; cbn [negb orb];
    [|apply (field_falsy _ _ "inventory"); [set_solver | exact Hinventory]].
  destruct (truthy (field "transcript" value)) eqn:Htranscript;
    cbn [negb orb];
    [|apply (field_falsy _ _ "transcript"); [set_solver | exact Htranscript]].
  destruct (truthy (field "totalEstimatedSize" value)) eqn:Htotal;
    cbn [negb orb];
    [|apply (field_falsy _ _ "totalEstimatedSize");
      [set_solver | exact Htotal]].
  pose proof (ensureUnitsOf_throws (field "totalEstimatedSize" value))
    as Hsize.
  unfold OnJSON.andThen at 1.
  destruct (ensureUnitsOf (field "totalEstimatedSize" value)) as [e|total].
  { destruct Hsize as (size & Hfield & Hsize).
    exact (total_unprintable _ _ size Hfield Hsize). }
  destruct (field "inventory" value) as [inventory|] eqn:Hfield;
    [|discriminate Hinventory].
  assert (Hother : (forall items, inventory <> OnJSON.VArray items) ->
                   turned_down numberIsTruthy value).
  { intros Hno. exact (inventory_not_array _ _ inventory Hfield Hno). }
  destruct inventory as [ |b|n|s|items|fields];
    try (apply Hother; discriminate).
  clear Hother.
  unfold OnJSON.andThen.
  destruct (OnJSON.mapThrowing withUnits items) as [e|items'] eqn:Hmap.
  - apply mapThrowing_inl in Hmap as (item & Hin & Hitem).
    pose proof (withUnits_throws item) as Hthrows. rewrite Hitem in Hthrows.
    destruct Hthrows as [->|(size & Hs & Hu)].
    + exact (item_null _ _ items Hfield Hin).
    + exact (item_size_unprintable _ _ items item size Hfield Hin Hs Hu).
  - intros [key Hkey Hfalsy|size Hs Hu|inventory Hi Hno|items0 Hi Hnull
            |items0 item size Hi Hin Hs Hu].
    + apply elem_of_cons in Hkey as [->|Hkey];
        [rewrite Hfield in Hfalsy; congruence|].
      apply elem_of_cons in Hkey as [->|Hkey]; [congruence|].
      apply elem_of_cons in Hkey as [->|Hkey]; [congruence|].
      inversion Hkey.
    + rewrite (Hsize size Hs) in Hu. discriminate.
    + rewrite Hfield in Hi. injection Hi as <-. exact (Hno items eq_refl).
    + rewrite Hfield in Hi. injection Hi as <-.
      destruct (mapThrowing_inr_elem _ _ _ _ Hmap Hnull) as (y & Hy).
      discriminate Hy.
    + rewrite Hfield in Hi. injection Hi as <-.
      destruct (mapThrowing_inr_elem _ _ _ _ Hmap Hin) as (y & Hy).
      pose proof (withUnits_throws item) as Hthrows.
      rewrite Hy in Hthrows. destruct Hthrows as [_ Hok].
      rewrite (Hok size Hs) in Hu. discriminate.
Qed.

(** The [try] block throws on the replies that cannot be used, and on no
    other. *)
Lemma tryGenerate_unusable reply :
  match tryGenerateOn reply with
  | inl _ => unusable numberIsTruthy JSON_parse reply
  | inr _ => ~ unusable numberIsTruthy JSON_parse reply
  end.
Proof.
  destruct reply as [reason|[text|]]; try (simpl; constructor).
  destruct (JSON_parse (trim text)) as [thrown|value] eqn:Hparse.
  - unfold OnJSON.tryGenerate. rewrite Hparse. simpl.
    exact (not_JSON _ _ text thrown Hparse).
  - pose proof (tryGenerate_value text value Hparse) as Hvalue.
    destruct (tryGenerateOn (OnJSON.Replied (Some text))).
    + exact (parsed_turned_down _ _ text value Hparse Hvalue).
    + intros Hun. inversion Hun as [| |text' thrown Hthrown|text' value' Hv Hdown];
        subst; [congruence|].
      rewrite Hparse in Hv. injection Hv as <-. exact (Hvalue Hdown).
Qed.

(** On a reply that has the types of the response schema, the generation
    from the text is the generation of [GeminiService]: the same replies
    are rejected, and the inventory returned is the same value. *)
Variable numberOfZ : Z -> Num.

Lemma withUnits_item item :
  withUnits (OnJSON.valueOfItem Num numberOfZ item)
  = inr (OnJSON.valueOfItem Num numberOfZ
           {| name := name item;
              count := count item;
              Types.description := Types.description item;
              tags := tags item;
              estimatedSize := ensureUnits (estimatedSize item) |}).
Proof. reflexivity. Qed.

Lemma mapThrowing_items items :
  OnJSON.mapThrowing withUnits (map (OnJSON.valueOfItem Num numberOfZ) items)
  = inr (map (OnJSON.valueOfItem Num numberOfZ)
           (map (fun item =>
                   {| name := name item;
                      count := count item;
                      Types.description := Types.description item;
                      tags := tags item;
                      estimatedSize := ensureUnits (estimatedSize item) |})
                items)).
Proof.
  induction items as [|item items IH]; [reflexivity|].
  change (OnJSON.mapThrowing withUnits
            (map (OnJSON.valueOfItem Num numberOfZ) (item :: items)))
    with (OnJSON.andThen (withUnits (OnJSON.valueOfItem Num numberOfZ item))
            (fun y =>
               OnJSON.andThen
                 (OnJSON.mapThrowing withUnits
                    (map (OnJSON.valueOfItem Num numberOfZ) items))
                 (fun others => inr (y :: others)))).
  rewrite withUnits_item, IH. reflexivity.
Qed.

Lemma generate_typed_agrees text parsedData :
  JSON_parse (trim text)
  = inr (OnJSON.valueOfParsedData Num numberOfZ parsedData) ->
  OnJSON.generateInventoryFromDescription Num numberIsTruthy numberToString
    JSON_parse (OnJSON.Replied (Some text))
  = match generateInventoryFromDescription (Parsed parsedData) with
    | inl thrown => inl thrown
    | inr data => inr (OnJSON.valueOfInventoryData Num numberOfZ data)
    end.
Proof.
  intros Hparse.
  unfold OnJSON.generateInventoryFromDescription, OnJSON.tryGenerate.
  rewrite Hparse. unfold OnJSON.andThen at 1.
  destruct parsedData as [[items|] [[|c script]|] [[|c' total]|]];
    try reflexivity.
  cbv -[ensureUnits OnJSON.mapThrowing OnJSON.withUnits map
        OnJSON.valueOfItem].
  rewrite mapThrowing_items. reflexivity.
Qed.

Lemma generate_typed_agrees_rejected :
  (forall reason,
      OnJSON.generateInventoryFromDescription Num numberIsTruthy
        numberToString JSON_parse (OnJSON.CallRejected reason)
      = inl generationError
      /\ generateInventoryFromDescription (CallRejected reason)
         = inl generationError)
  /\ (forall text reason,
         JSON_parse (trim text) = inl reason ->
         OnJSON.generateInventoryFromDescription Num numberIsTruthy
           numberToString JSON_parse (OnJSON.Replied (Some text))
         = inl generationError
         /\ generateInventoryFromDescription (NotJSON reason)
            = inl generationError).
Proof.
  split; [intros reason; split; reflexivity|].
  intros text reason Hparse. split; [|reflexivity].
  unfold OnJSON.generateInventoryFromDescription, OnJSON.tryGenerate.
  rewrite Hparse. reflexivity.
Qed.

End GenerateOnJSON.

(** C5, as the code has it. The generation fails exactly when the call is
    rejected, or the response has no text, or its text is not JSON, or
    the value parsed is turned down: one of [inventory], [transcript],
    [totalEstimatedSize] is not there or is falsy, or [inventory] is not
    an array, or one of its items is [null], or [totalEstimatedSize] or
    the [estimatedSize] of an item cannot be converted to a string. Every
    failure is the one error of the [catch] block, and a failure carries
    no data. *)
Theorem generate_fails_exactly {Num : Type}
    (numberIsTruthy : Num -> bool) (numberToString : Num -> jsstring)
    (JSON_parse : jsstring -> Thrown + OnJSON.Value Num)
    (reply : OnJSON.ServiceReply) :
  match OnJSON.generateInventoryFromDescription Num numberIsTruthy
          numberToString JSON_parse reply with
  | inl thrown =>
      thrown = generationError /\ unusable numberIsTruthy JSON_parse reply
  | inr _ => ~ unusable numberIsTruthy JSON_parse reply
  end.
Proof.
  unfold OnJSON.generateInventoryFromDescription.
  pose proof (tryGenerate_unusable numberIsTruthy numberToString JSON_parse
                reply) as H.
  destruct (OnJSON.tryGenerate Num numberIsTruthy numberToString JSON_parse
              reply).
  - split; [reflexivity | exact H].
  - exact H.
Qed.

(** C5 as stated fails on a reply that has all three fields, with an empty
    transcript: no field is absent, and yet the generation fails. *)
Lemma generate_fails_on_empty_transcript :
  let JSON_parse := parseListed [(emptyTranscriptText, emptyTranscriptValue)] in
  JSON_parse (trim emptyTranscriptText) = inr emptyTranscriptValue
  /\ field "inventory" emptyTranscriptValue = Some (OnJSON.VArray [])
  /\ field "transcript" emptyTranscriptValue = Some (OnJSON.VString [])
  /\ field "totalEstimatedSize" emptyTranscriptValue
     = Some (OnJSON.VString (str "5 cu ft"))
  /\ OnJSON.generateInventoryFromDescription Z integerIsTruthy decimal
       JSON_parse (OnJSON.Replied (Some emptyTranscriptText))
     = inl generationError.
Proof. vm_compute. repeat split. Qed.

(** A reply with the three fields truthy is rejected all the same when
    its inventory is a string, or holds a [null]. *)
Lemma generate_fails_on_untyped_inventory :
  let JSON_parse := parseListed [(stringInventoryText, stringInventoryValue);
                                 (nullItemText, nullItemValue)] in
  JSON_parse (trim stringInventoryText) = inr stringInventoryValue
  /\ JSON_parse (trim nullItemText) = inr nullItemValue
  /\ OnJSON.generateInventoryFromDescription Z integerIsTruthy decimal
       JSON_parse (OnJSON.Replied (Some stringInventoryText))
     = inl generationError
  /\ OnJSON.generateInventoryFromDescription Z integerIsTruthy decimal
       JSON_parse (OnJSON.Replied (Some nullItemText))
     = inl generationError.
Proof. vm_compute. repeat split. Qed.

(** An item that is not of the schema goes through: one without a size
    gets the size [undefined]. *)
Lemma generate_accepts_untyped_item :
  let JSON_parse := parseListed [(bareItemText, bareItemValue)] in
  JSON_parse (trim bareItemText) = inr bareItemValue
  /\ OnJSON.generateInventoryFromDescription Z integerIsTruthy decimal
       JSON_parse (OnJSON.Replied (Some bareItemText))
     = inr (OnJSON.VObject
              [ (str "inventory",
                 OnJSON.VArray
                   [ OnJSON.VObject
                       [ (str "name", OnJSON.VString (str "Sofa"));
                         (str "estimatedSize",
                          OnJSON.VString (str "undefined")) ] ]);
                (str "transcript", OnJSON.VString (str "A sofa."));
                (str "totalEstimatedSize",
                 OnJSON.VString (str "50 cubic feet")) ]).
Proof. vm_compute. repeat split. Qed.

(** C10. A successful generation returns the transcript of the parsed
    reply, and its items one for one and in their order, each with the
    name, the count, the description and the tags it had; only
    [estimatedSize] and [totalEstimatedSize] go through [ensureUnits]. *)
Theorem generate_frame (reply : ServiceReply) (d : InventoryData) :
  generateInventoryFromDescription reply = inr d ->
  exists p items script total,
    reply = Parsed p
    /\ parsed_inventory p = Some items
    /\ parsed_transcript p = Some script
    /\ parsed_totalEstimatedSize p = Some total
    /\ transcript d = script
    /\ totalEstimatedSize d = ensureUnits total
    /\ length (inventory d) = length items
    /\ Forall2 same_but_size (inventory d) items.
Proof.
  unfold generateInventoryFromDescription. intros H.
  destruct reply as [reason| |p]; [discriminate H..|].
  pose proof (tryGenerate_parsed p) as Hp.
  destruct (tryGenerate (Parsed p)) as [e|d']; [discriminate|].
  injection H as ->.
  destruct Hp as (items & script & total & Hi & Hs & _ & Ht & _ & Hd1 & Hd2 & Hall).
  exists p, items, script, total.
  repeat (split; [first [reflexivity | assumption]|]).
  split; [|assumption]. eapply Forall2_length; eassumption.
Qed.

(* ===================================================================== *)
(** ** The sort of [getSavedInventories]                                  *)
(* ===================================================================== *)

Section Sorting.

Implicit Types (x : SavedInventoryData) (l : list SavedInventoryData).

Lemma Forall_sort_insert (Q : SavedInventoryData -> Prop) x l :
  Forall Q (sort_insert byCreatedAtDesc x l) <-> Q x /\ Forall Q l.
Proof.
  induction l as [|y l IH]; simpl.
  - rewrite Forall_singleton, Forall_nil. tauto.
  - destruct (_ <=? 0)%Z.
    + rewrite Forall_cons. tauto.
    + rewrite !Forall_cons, IH. tauto.
Qed.

Lemma sort_insert_newest x l :
  Forall (fun b => (createdAt b <= createdAt x)%Z) l ->
  sort_insert byCreatedAtDesc x l = x :: l.
Proof.
  destruct l as [|y l]; simpl; [reflexivity|].
  intros H. apply Forall_cons in H as [Hy _].
  unfold byCreatedAtDesc. destruct (Z.leb_spec (createdAt y - createdAt x) 0);
    [reflexivity | lia].
Qed.

Lemma sort_insert_sorted x l :
  newest_first l -> newest_first (sort_insert byCreatedAtDesc x l).
Proof.
  unfold newest_first. induction l as [|y l IH]; simpl; intros Hl.
  - repeat constructor.
  - apply StronglySorted_cons in Hl as [Hy Hl]. unfold byCreatedAtDesc at 1.
    destruct (Z.leb_spec (createdAt y - createdAt x) 0) as [Hle|Hgt].
    + apply StronglySorted_cons. split.
      * constructor; [lia|].
        eapply Forall_impl; [exact Hy|]. simpl. intros z Hz. lia.
      * apply StronglySorted_cons. split; assumption.
    + apply StronglySorted_cons. split; [|apply IH; assumption].
      apply Forall_sort_insert. split; [lia | assumption].
Qed.

Lemma sort_sorted l : newest_first (sort byCreatedAtDesc l).
Proof.
  induction l as [|x l IH]; simpl; [constructor|].
  apply sort_insert_sorted, IH.
Qed.

(** Sorting a list that is sorted leaves it as it is. *)
Lemma sort_id l : newest_first l -> sort byCreatedAtDesc l = l.
Proof.
  unfold newest_first. induction l as [|x l IH]; simpl; [reflexivity|].
  intros Hl. apply StronglySorted_cons in Hl as [Hx Hl].
  rewrite (IH Hl). apply sort_insert_newest, Hx.
Qed.

Lemma sort_Forall (Q : SavedInventoryData -> Prop) l :
  Forall Q (sort byCreatedAtDesc l) <-> Forall Q l.
Proof.
  induction l as [|x l IH]; simpl; [reflexivity|].
  rewrite Forall_sort_insert, Forall_cons, IH. reflexivity.
Qed.

Context (P : SavedInventoryData -> Prop) `{!forall x, Decision (P x)}.

Lemma filter_sort_insert_out x l :
  ~ P x -> filter P (sort_insert byCreatedAtDesc x l) = filter P l.
Proof.
  intros Hx. induction l as [|y l IH]; simpl.
  - apply filter_cons_False, Hx.
  - destruct (_ <=? 0)%Z.
    + apply filter_cons_False, Hx.
    + rewrite !filter_cons, IH. reflexivity.
Qed.

Lemma filter_all l : Forall P l -> filter P l = l.
Proof.
  induction l as [|y l IH]; intros Hl; [reflexivity|].
  apply Forall_cons in Hl as [Hy Hl].
  rewrite filter_cons_True by assumption. rewrite (IH Hl). reflexivity.
Qed.

Lemma filter_sorted l : newest_first l -> newest_first (filter P l).
Proof.
  unfold newest_first. induction l as [|y l IH]; intros Hl; [constructor|].
  apply StronglySorted_cons in Hl as [Hy Hl]. rewrite filter_cons.
  destruct (decide (P y)); [|apply IH, Hl].
  apply StronglySorted_cons. split; [|apply IH, Hl].
  apply Forall_forall. intros z Hz. apply list_elem_of_filter in Hz as [_ Hz].
  rewrite Forall_forall in Hy. apply Hy, Hz.
Qed.

End Sorting.

(* ===================================================================== *)
(** ** The inventory store                                                *)
(* ===================================================================== *)

Section Store.

Implicit Types (ls : gmap string StoredText).

(** Reading what the store wrote gives the list back, sorted. *)
Lemma getSavedInventories_written v ls :
  getSavedInventories (<[STORAGE_KEY := Serialized v]> ls)
  = (sort byCreatedAtDesc v, <[STORAGE_KEY := Serialized v]> ls).
Proof. unfold getSavedInventories. rewrite lookup_insert_eq. reflexivity. Qed.

(** A second read finds what the first one left, and changes nothing. *)
Lemma getSavedInventories_again ls :
  getSavedInventories (snd (getSavedInventories ls))
  = (listed ls, snd (getSavedInventories ls)).
Proof.
  unfold listed, getSavedInventories.
  destruct (ls !! STORAGE_KEY) as [[| |v]|] eqn:Hk; simpl; rewrite ?Hk;
    try reflexivity.
  rewrite lookup_delete_eq. reflexivity.
Qed.

Lemma listed_sorted ls : newest_first (listed ls).
Proof.
  unfold listed, getSavedInventories.
  destruct (ls !! STORAGE_KEY) as [[| |v]|]; simpl;
    first [apply sort_sorted | constructor].
Qed.

(** [saveInventory] when the write goes through. *)
Lemma saveInventory_written idClock createdClock inventoryData ls :
  let new := enriched idClock createdClock inventoryData in
  let ls' := snd (saveInventory idClock createdClock true inventoryData ls) in
  fst (saveInventory idClock createdClock true inventoryData ls) = inr new
  /\ ls' !! STORAGE_KEY = Some (Serialized (new :: listed ls))
  /\ listed ls' = sort byCreatedAtDesc (new :: listed ls).
Proof.
  unfold saveInventory, listed.
  destruct (getSavedInventories ls) as [allInventories ls1]; simpl.
  split; [reflexivity|]. split; [apply lookup_insert_eq|].
  rewrite getSavedInventories_written. reflexivity.
Qed.

(** [saveInventory] when the write fails: the error of the source, and
    no record added. *)
Lemma saveInventory_full idClock createdClock inventoryData ls :
  saveInventory idClock createdClock false inventoryData ls
  = (inl saveError, snd (getSavedInventories ls)).
Proof.
  unfold saveInventory. destruct (getSavedInventories ls); reflexivity.
Qed.

(** With a clock that has not gone back, the new record is listed first,
    in front of the records listed before. *)
Theorem saveInventory_listed_first idClock createdClock inventoryData ls :
  Forall (fun r => (createdAt r <= createdClock)%Z) (listed ls) ->
  listed (snd (saveInventory idClock createdClock true inventoryData ls))
  = enriched idClock createdClock inventoryData :: listed ls.
Proof.
  intros Hclock.
  destruct (saveInventory_written idClock createdClock inventoryData ls)
    as (_ & _ & ->).
  simpl. rewrite (sort_id _ (listed_sorted ls)).
  apply sort_insert_newest. exact Hclock.
Qed.

Lemma deleteInventoryById_unfold room id0 ls :
  deleteInventoryById room id0 ls
  = if room
    then <[STORAGE_KEY :=
             Serialized (filter (fun inv => id inv ≠ id0) (listed ls))]>
           (snd (getSavedInventories ls))
    else snd (getSavedInventories ls).
Proof.
  unfold deleteInventoryById, listed.
  destruct (getSavedInventories ls); destruct room; reflexivity.
Qed.

(** What is listed after [deleteInventoryById]. *)
Lemma deleteInventoryById_listed room id0 ls :
  listed (deleteInventoryById room id0 ls)
  = if room then filter (fun inv => id inv ≠ id0) (listed ls) else listed ls.
Proof.
  rewrite deleteInventoryById_unfold. unfold listed at 1. destruct room.
  - rewrite getSavedInventories_written. simpl.
    apply sort_id, filter_sorted, listed_sorted.
  - rewrite getSavedInventories_again. reflexivity.
Qed.

(** Deleting an id no listed record has changes nothing in the list. *)
Theorem deleteInventoryById_absent room id0 ls :
  Forall (fun inv => id inv ≠ id0) (listed ls) ->
  listed (deleteInventoryById room id0 ls) = listed ls.
Proof.
  intros Habsent. rewrite deleteInventoryById_listed.
  destruct room; [|reflexivity]. apply filter_all, Habsent.
Qed.

(** Deleting twice is deleting once. *)
Theorem deleteInventoryById_idempotent room id0 ls :
  deleteInventoryById room id0 (deleteInventoryById room id0 ls)
  = deleteInventoryById room id0 ls.
Proof.
  rewrite (deleteInventoryById_unfold room id0 (deleteInventoryById _ _ _)).
  rewrite deleteInventoryById_listed.
  rewrite (deleteInventoryById_unfold room id0 ls). destruct room.
  - rewrite getSavedInventories_written. simpl. rewrite insert_insert_eq.
    rewrite filter_all; [reflexivity|].
    apply Forall_forall. intros inv Hinv.
    apply list_elem_of_filter in Hinv as [Hinv _]. exact Hinv.
  - rewrite getSavedInventories_again. reflexivity.
Qed.

(** Saving and then deleting the id returned restores the list, when no
    record listed before has that id. *)
Theorem save_delete_round_trip idClock createdClock inventoryData room ls :
  Forall (fun inv => id inv ≠ str "inv_" ++ decimal idClock) (listed ls) ->
  listed (deleteInventoryById true (str "inv_" ++ decimal idClock)
            (snd (saveInventory idClock createdClock room inventoryData ls)))
  = listed ls.
Proof.
  intros Hfresh. rewrite deleteInventoryById_listed.
  destruct room.
  - destruct (saveInventory_written idClock createdClock inventoryData ls)
      as (_ & _ & ->).
    simpl. rewrite (sort_id _ (listed_sorted ls)).
    rewrite filter_sort_insert_out by (simpl; intros H; apply H; reflexivity).
    apply filter_all, Hfresh.
  - rewrite saveInventory_full. simpl.
    unfold listed at 1. rewrite getSavedInventories_again. simpl.
    apply filter_all, Hfresh.
Qed.

(** Two clock readings give the same id only if they are the same. *)
Lemma decimal_inj n m : decimal n = decimal m -> n = m.
Proof.
  unfold decimal. intros H.
  assert (Hstr : forall a b, str a = str b -> a = b).
  { induction a as [|c a IH]; destruct b as [|d b]; simpl;
      try discriminate; [reflexivity|].
    intros Heq. injection Heq as Hc Hr.
    rewrite <- (ascii_N_embedding c), <- (ascii_N_embedding d), Hc.
    f_equal. apply IH, Hr. }
  apply Hstr in H.
  assert (Hnorm : forall z, Z.to_int z <> Decimal.Pos Decimal.Nil
                            /\ Z.to_int z <> Decimal.Neg Decimal.Nil).
  { intros [|q|q]; simpl; split; try discriminate; intros Hq;
      injection Hq as Hq; exact (DecimalPos.Unsigned.to_uint_nonnil q Hq). }
  apply DecimalZ.to_int_inj.
  pose proof (NilZero.isi (Z.to_int n) (proj1 (Hnorm n)) (proj2 (Hnorm n))) as Hn.
  pose proof (NilZero.isi (Z.to_int m) (proj1 (Hnorm m)) (proj2 (Hnorm m))) as Hm.
  rewrite H in Hn. congruence.
Qed.

(** Saves at different readings of the clock get different ids. *)
Lemma enriched_id_inj idClock1 idClock2 created1 created2 x y :
  id (enriched idClock1 created1 x) = id (enriched idClock2 created2 y) ->
  idClock1 = idClock2.
Proof.
  simpl. intros H. injection H as H. apply decimal_inj, H.
Qed.

End Store.

Section StoreClaims.

Implicit Types (ls : gmap string StoredText).

Lemma elem_of_sort_insert (z x : SavedInventoryData) l :
  z ∈ sort_insert byCreatedAtDesc x l <-> z = x \/ z ∈ l.
Proof.
  induction l as [|y l IH]; simpl.
  - rewrite list_elem_of_singleton, elem_of_nil. tauto.
  - destruct (_ <=? 0)%Z.
    + rewrite elem_of_cons. reflexivity.
    + rewrite !elem_of_cons, IH. tauto.
Qed.

Lemma elem_of_sort (z : SavedInventoryData) l :
  z ∈ sort byCreatedAtDesc l <-> z ∈ l.
Proof.
  induction l as [|y l IH]; simpl; [reflexivity|].
  rewrite elem_of_sort_insert, elem_of_cons, IH. reflexivity.
Qed.

(** After a save that went through, the new record and the records
    listed before are the records listed. *)
Lemma saveInventory_elem_of idClock createdClock inventoryData ls z :
  z ∈ listed (snd (saveInventory idClock createdClock true inventoryData ls))
  <-> z = enriched idClock createdClock inventoryData \/ z ∈ listed ls.
Proof.
  destruct (saveInventory_written idClock createdClock inventoryData ls)
    as (_ & _ & ->).
  rewrite elem_of_sort, elem_of_cons. reflexivity.
Qed.

End StoreClaims.

(** C3: where the code departs from the claim. Two saves at the same reading
    of the clock, of any two inventories and on any store, return records
    with one and the same id, and both records are listed afterwards: the
    id is not unique. *)
Theorem saveInventory_same_millisecond_same_id
    (clock : Z) (x y : InventoryData) (ls : gmap string StoredText) :
  let ls1 := snd (saveInventory clock clock true x ls) in
  let ls2 := snd (saveInventory clock clock true y ls1) in
  exists rx ry,
    fst (saveInventory clock clock true x ls) = inr rx
    /\ fst (saveInventory clock clock true y ls1) = inr ry
    /\ saved_data rx = x /\ saved_data ry = y
    /\ id rx = id ry
    /\ (rx ∈ listed ls2) /\ (ry ∈ listed ls2).
Proof.
  intros ls1 ls2. exists (enriched clock clock x), (enriched clock clock y).
  split; [apply saveInventory_written|].
  split; [apply saveInventory_written|].
  do 3 (split; [reflexivity|]).
  unfold ls2. rewrite !saveInventory_elem_of. split; [right|left; reflexivity].
  unfold ls1. apply saveInventory_elem_of. left. reflexivity.
Qed.

(** C8: where the code departs from the claim. On a store that holds a
    record saved at some reading of the clock, save another inventory at
    the same reading and delete the id returned: the record that was there
    before the save is gone with it, so the list is not the one before the
    save. *)
Theorem delete_after_same_millisecond_save
    (clock : Z) (x y : InventoryData) (ls : gmap string StoredText) :
  let before := snd (saveInventory clock clock true x ls) in
  let saved := saveInventory clock clock true y before in
  let after := deleteInventoryById true (str "inv_" ++ decimal clock) (snd saved) in
  fst saved = inr (enriched clock clock y)
  /\ id (enriched clock clock y) = str "inv_" ++ decimal clock
  /\ (enriched clock clock x ∈ listed before)
  /\ (enriched clock clock x ∉ listed after)
  /\ listed after <> listed before.
Proof.
  intros before saved after.
  assert (Hin : enriched clock clock x ∈ listed before).
  { apply saveInventory_elem_of. left. reflexivity. }
  assert (Hout : enriched clock clock x ∉ listed after).
  { unfold after. rewrite deleteInventoryById_listed.
    intros H. apply list_elem_of_filter in H as [H _]. apply H. reflexivity. }
  split; [apply saveInventory_written|]. split; [reflexivity|].
  split; [exact Hin|]. split; [exact Hout|].
  intros Heq. rewrite Heq in Hout. exact (Hout Hin).
Qed.

(** The two departures on an empty [localStorage], with the clock reading
    1000 throughout: both records get the id ["inv_1000"], and deleting it
    after the second save empties the list, which held one record before
    that save. *)
Example same_millisecond_on_empty_store :
  let store0 : gmap string StoredText := ∅ in
  let store1 := snd (saveInventory 1000 1000 true sampleInventory store0) in
  let store2 := snd (saveInventory 1000 1000 true sampleInventory store1) in
  let store3 := deleteInventoryById true (str "inv_1000") store2 in
  map id (listed store1) = [str "inv_1000"]
  /\ map id (listed store2) = [str "inv_1000"; str "inv_1000"]
  /\ listed store2 = [enriched 1000 1000 sampleInventory;
                      enriched 1000 1000 sampleInventory]
  /\ listed store3 = [].
Proof. vm_compute. repeat split. Qed.

(* ===================================================================== *)
(** ** [getSavedInventories], from the text in [localStorage]             *)
(* ===================================================================== *)

Section ReadOnJSON.

Context {Num : Type}.
Variable JSON_parse : jsstring -> Thrown + OnJSON.Value Num.
Variable sortByCreatedAt :
  list (OnJSON.Value Num) -> Thrown + list (OnJSON.Value Num).

#[local] Abbreviation tryRead :=
  (OnJSON.tryGetSavedInventories Num JSON_parse sortByCreatedAt).
#[local] Abbreviation read :=
  (OnJSON.getSavedInventories Num JSON_parse sortByCreatedAt).

Implicit Types (localStorage : gmap string jsstring).

(** The [try] block throws on a text that is not empty and that
    [JSON.parse] rejects, or that parses to a value that is not an array,
    or to an array the sort throws on; on no other. *)
Lemma tryGetSavedInventories_throws localStorage :
  (exists thrown, tryRead localStorage = inl thrown)
  <-> exists savedData,
        localStorage !! STORAGE_KEY = Some savedData
        /\ savedData <> []
        /\ ((exists thrown, JSON_parse savedData = inl thrown)
            \/ (exists value, JSON_parse savedData = inr value
                              /\ forall elements,
                                   value <> OnJSON.VArray elements)
            \/ (exists elements thrown,
                   JSON_parse savedData = inr (OnJSON.VArray elements)
                   /\ sortByCreatedAt elements = inl thrown)).
Proof.
  unfold OnJSON.tryGetSavedInventories. split.
  - intros [thrown Hthrown].
    destruct (localStorage !! STORAGE_KEY) as [[|c rest]|]; try discriminate.
    exists (c :: rest). split; [reflexivity|]. split; [discriminate|].
    unfold OnJSON.andThen in Hthrown.
    destruct (JSON_parse (c :: rest)) as [e|value]; [left; eauto|].
    right.
    destruct value as [ |b|n|s|elements|properties];
      try (left; eexists; split; [reflexivity | discriminate]).
    right. destruct (sortByCreatedAt elements) as [e|sorted] eqn:Hsort;
      [eauto | discriminate].
  - intros (savedData & -> & Hne & Hcases).
    destruct savedData as [|c rest]; [contradiction|].
    unfold OnJSON.andThen.
    destruct Hcases as [[e ->]|[(value & -> & Hvalue)|(elements & e & -> & ->)]];
      [eauto | | eauto].
    destruct value as [ |b|n|s|elements|properties]; eauto.
    destruct (Hvalue elements eq_refl).
Qed.

(** When the [try] block throws, the entry is removed and the empty array
    returned; the next read finds no entry. *)
Lemma getSavedInventories_thrown localStorage thrown :
  tryRead localStorage = inl thrown ->
  read localStorage = ([], delete STORAGE_KEY localStorage)
  /\ read (delete STORAGE_KEY localStorage)
     = ([], delete STORAGE_KEY localStorage).
Proof.
  intros Hthrown. unfold OnJSON.getSavedInventories. rewrite Hthrown.
  split; [reflexivity|].
  unfold OnJSON.tryGetSavedInventories. rewrite lookup_delete_eq. reflexivity.
Qed.

(** A text that parses to an array the sort returns is left where it is,
    and the array is returned, whatever its elements are. *)
Lemma getSavedInventories_array localStorage c rest elements sorted :
  localStorage !! STORAGE_KEY = Some (c :: rest) ->
  JSON_parse (c :: rest) = inr (OnJSON.VArray elements) ->
  sortByCreatedAt elements = inr sorted ->
  read localStorage = (sorted, localStorage).
Proof.
  intros Hkey Hparse Hsort.
  unfold OnJSON.getSavedInventories, OnJSON.tryGetSavedInventories.
  rewrite Hkey. unfold OnJSON.andThen. rewrite Hparse, Hsort. reflexivity.
Qed.

(** The entry goes only when the [try] block throws. *)
Lemma getSavedInventories_removes localStorage :
  is_Some (localStorage !! STORAGE_KEY) ->
  snd (read localStorage) !! STORAGE_KEY = None ->
  exists thrown, tryRead localStorage = inl thrown.
Proof.
  intros [savedData Hkey]. unfold OnJSON.getSavedInventories.
  destruct (tryRead localStorage) as [thrown|[inventories|]]; simpl;
    [eauto | congruence..].
Qed.

(** [StoredText] and the text agree where there is no list to read: the
    empty string is [EmptyText], a text on which the [try] block throws is
    [Malformed], and the two readings return the empty list and leave the
    same entries. *)
Lemma getSavedInventories_StoredText localStorage :
  (forall c rest, localStorage !! STORAGE_KEY = Some (c :: rest) ->
     exists thrown, tryRead localStorage = inl thrown) ->
  fst (read localStorage) = []
  /\ fst (getSavedInventories (storedTextOf <$> localStorage)) = []
  /\ snd (getSavedInventories (storedTextOf <$> localStorage))
     = storedTextOf <$> snd (read localStorage).
Proof.
  intros Hthrows.
  unfold getSavedInventories, OnJSON.getSavedInventories.
  rewrite lookup_fmap.
  destruct (localStorage !! STORAGE_KEY) as [[|c rest]|] eqn:Hkey; simpl.
  - unfold OnJSON.tryGetSavedInventories. rewrite Hkey. simpl. auto.
  - destruct (Hthrows c rest eq_refl) as [thrown ->]. simpl.
    rewrite fmap_delete. auto.
  - unfold OnJSON.tryGetSavedInventories. rewrite Hkey. simpl. auto.
Qed.

End ReadOnJSON.

(** C9, as the code has it. When the text under the key is not empty and
    [JSON.parse] rejects it, [getSavedInventories] returns the empty
    array, removes the entry, and returns the empty array again on the
    next read. When the text is the empty string, it returns the empty
    array and leaves the entry where it is. No error reaches the caller
    either way: the function returns an array. *)
Theorem getSavedInventories_unreadable {Num : Type}
    (JSON_parse : jsstring -> Thrown + OnJSON.Value Num)
    (sortByCreatedAt :
       list (OnJSON.Value Num) -> Thrown + list (OnJSON.Value Num))
    (localStorage : gmap string jsstring) (savedData : jsstring) :
  localStorage !! STORAGE_KEY = Some savedData ->
  (savedData <> [] ->
   (exists thrown, JSON_parse savedData = inl thrown) ->
     OnJSON.getSavedInventories Num JSON_parse sortByCreatedAt localStorage
     = ([], delete STORAGE_KEY localStorage)
     /\ delete STORAGE_KEY localStorage !! STORAGE_KEY = None
     /\ OnJSON.getSavedInventories Num JSON_parse sortByCreatedAt
          (delete STORAGE_KEY localStorage)
        = ([], delete STORAGE_KEY localStorage))
  /\ (savedData = [] ->
        OnJSON.getSavedInventories Num JSON_parse sortByCreatedAt localStorage
        = ([], localStorage)).
Proof.
  intros Hkey. split.
  - intros Hne [thrown Hparse].
    assert (Hthrown : OnJSON.tryGetSavedInventories Num JSON_parse
                        sortByCreatedAt localStorage = inl thrown).
    { unfold OnJSON.tryGetSavedInventories. unfold jsstring in *.
      rewrite Hkey. destruct savedData as [|c rest]; [contradiction|].
      unfold OnJSON.andThen. rewrite Hparse. reflexivity. }
    destruct (getSavedInventories_thrown JSON_parse sortByCreatedAt
                localStorage thrown Hthrown) as [Hfirst Hnext].
    split; [exact Hfirst|]. split; [apply lookup_delete_eq | exact Hnext].
  - intros ->. unfold OnJSON.getSavedInventories,
      OnJSON.tryGetSavedInventories. unfold jsstring in *.
    rewrite Hkey. reflexivity.
Qed.

(** A store whose one entry is the text [{oops], which is not JSON, is
    read as empty, and the entry goes. *)
Lemma getSavedInventories_unreadable_witness :
  let JSON_parse := parseListed [(str "[]", OnJSON.VArray ([] : list (OnJSON.Value Z)))] in
  let localStorage : gmap string jsstring := {[ STORAGE_KEY := str "{oops" ]} in
  localStorage !! STORAGE_KEY = Some (str "{oops")
  /\ str "{oops" <> []
  /\ (exists thrown, JSON_parse (str "{oops") = inl thrown)
  /\ OnJSON.getSavedInventories Z JSON_parse inr localStorage
     = ([], delete STORAGE_KEY localStorage).
Proof.
  intros JSON_parse localStorage.
  assert (Hkey : localStorage !! STORAGE_KEY = Some (str "{oops"))
    by apply lookup_singleton_eq.
  assert (Hne : str "{oops" <> []) by discriminate.
  assert (Hparse : exists thrown, JSON_parse (str "{oops") = inl thrown)
    by (eexists; reflexivity).
  split; [exact Hkey|]. split; [exact Hne|]. split; [exact Hparse|].
  destruct (getSavedInventories_unreadable JSON_parse inr localStorage
              (str "{oops") Hkey) as [Hremoved _].
  apply (Hremoved Hne Hparse).
Defined.

(** C9 as stated fails when the text under the key is the empty string,
    which [JSON.parse] rejects: the empty array is returned, but the entry
    is not removed. *)
Lemma getSavedInventories_keeps_empty_text :
  let JSON_parse := parseListed [(str "[]", OnJSON.VArray ([] : list (OnJSON.Value Z)))] in
  let localStorage : gmap string jsstring := {[ STORAGE_KEY := [] ]} in
  let after := snd (OnJSON.getSavedInventories Z JSON_parse inr localStorage) in
  (exists thrown, JSON_parse [] = inl thrown)
  /\ fst (OnJSON.getSavedInventories Z JSON_parse inr localStorage) = []
  /\ after !! STORAGE_KEY = Some []
  /\ after <> delete STORAGE_KEY localStorage.
Proof.
  intros JSON_parse localStorage after.
  assert (Hread : OnJSON.getSavedInventories Z JSON_parse inr localStorage
                  = ([], localStorage)).
  { unfold OnJSON.getSavedInventories, OnJSON.tryGetSavedInventories.
    unfold localStorage. rewrite lookup_singleton_eq. reflexivity. }
  unfold after. rewrite Hread. simpl.
  split; [eexists; reflexivity|]. split; [reflexivity|].
  split; [apply lookup_singleton_eq|].
  intros H. apply (f_equal (fun m => m !! STORAGE_KEY)) in H.
  unfold localStorage in H.
  rewrite lookup_singleton_eq, lookup_delete_eq in H. discriminate.
Qed.

(* ===================================================================== *)
(** ** The view state machine                                             *)
(* ===================================================================== *)

Section Machine.

Lemma is_view_true v st : is_view v st = true -> view st = v.
Proof. unfold is_view. apply bool_decide_eq_true. Qed.

Lemma showsResult_true st :
  showsResult st = true -> view st = SUCCESS /\ is_Some (activeInventory st).
Proof.
  unfold showsResult. rewrite andb_true_iff, bool_decide_eq_true.
  intros [Hv Ha]. split; [apply is_view_true, Hv | exact Ha].
Qed.

Lemma formReady_true st :
  formReady st = true -> view st = IDLE /\ isProcessingVideo st = false.
Proof.
  unfold formReady. rewrite andb_true_iff, negb_true_iff.
  intros [Hv Hp]. split; [apply is_view_true, Hv | exact Hp].
Qed.

(** [handleResetToIdle] resets every transient cell. *)
Lemma handleResetToIdle_clears st :
  handleResetToIdle st
  = mkState [] IDLE None (savedInventories st) None None false.
Proof. reflexivity. Qed.

Lemma handleSaveInventory_state idClock createdClock room inv st ls :
  fst (handleSaveInventory idClock createdClock room inv st ls) = st
  \/ exists saved,
       fst (handleSaveInventory idClock createdClock room inv st ls)
       = setView LIST_INVENTORIES (setSavedInventories saved st).
Proof.
  unfold handleSaveInventory.
  destruct (saveInventory idClock createdClock room inv ls) as [[e|r] ls'];
    simpl; [left; reflexivity | right; eauto].
Qed.

Lemma handleDeleteInventory_state room id0 st ls :
  exists saved,
    fst (handleDeleteInventory room id0 st ls) = setSavedInventories saved st
    \/ fst (handleDeleteInventory room id0 st ls)
       = setActiveInventory None
           (setView LIST_INVENTORIES (setSavedInventories saved st)).
Proof.
  unfold handleDeleteInventory.
  destruct (getSavedInventories _) as [updatedList ls2]. exists updatedList.
  simpl. destruct (activeInventory st) as [[result|inv]|]; auto.
  destruct (decide (id inv = id0)); auto.
Qed.

(** One event keeps the active inventory where it can be. *)
Lemma dispatch_active_placed e w w' :
  active_placed (ui w) -> dispatch e w = Some w' -> active_placed (ui w').
Proof.
  unfold active_placed. intros Hinv Hd.
  destruct e; simpl in Hd;
    repeat match type of Hd with
      | (if ?g then _ else _) = _ => destruct g eqn:?; [|discriminate]
      | match videoJobs ?w with _ => _ end = _ =>
          destruct (videoJobs w); [discriminate|]
      end;
    repeat match goal with
      | H : formReady _ = true |- _ => apply formReady_true in H as [? ?]
      | H : showsResult _ = true |- _ => apply showsResult_true in H as [? ?]
      | H : is_view _ _ = true |- _ => apply is_view_true in H
      | H : _ && _ = true |- _ => apply andb_true_iff in H as [? ?]
      end.
  - (* TypeDescription *) injection Hd as <-. simpl. exact Hinv.
  - (* ChooseFile *) injection Hd as <-. destruct file; simpl; exact Hinv.
  - (* UseCamera *) injection Hd as <-. simpl. left.
    destruct Hinv as [?|[?|?]]; [assumption | congruence..].
  - (* ViewSaved *) injection Hd as <-. simpl. auto.
  - (* Submit *) injection Hd as <-. unfold handleSubmit.
    destruct (trim _); simpl; [|auto].
    destruct Hinv as [?|[?|?]]; [auto | congruence..].
  - (* GenerationSettled *) injection Hd as <-.
    destruct (generateInventoryFromDescription reply); simpl; [|auto].
    destruct Hinv as [?|[?|?]]; [auto | congruence..].
  - (* VideoDescribed *) injection Hd as <-.
    destruct outcome; simpl; exact Hinv.
  - (* CaptureCancel *) injection Hd as <-. simpl.
    destruct Hinv as [?|[?|?]]; [auto | congruence..].
  - (* CaptureComplete *) injection Hd as <-. simpl.
    destruct Hinv as [?|[?|?]]; [auto | congruence..].
  - (* Save *)
    pose proof (handleSaveInventory_state idClock createdClock room
                  inventoryToSave (ui w) (localStorage w)) as Hs.
    destruct (handleSaveInventory _ _ _ _ _ _) as [st' ls'].
    injection Hd as <-. simpl in *.
    destruct Hs as [->|(saved & ->)]; simpl; auto.
  - (* Delete *)
    pose proof (handleDeleteInventory_state room id0 (ui w) (localStorage w))
      as (saved & Hs).
    destruct (handleDeleteInventory _ _ _ _) as [st' ls'].
    injection Hd as <-. simpl in *.
    destruct Hs as [->| ->]; simpl; auto.
  - (* Done *) injection Hd as <-. unfold onDone.
    destruct (activeInventory (ui w)) as [[?|?]|]; simpl; auto.
  - (* ViewInventory *) injection Hd as <-. simpl. auto.
  - (* New *) injection Hd as <-. simpl. auto.
  - (* TryAgain *) injection Hd as <-. simpl. auto.
Qed.

(** In every world the component can be in, an active inventory is in the
    result view or in the list view. *)
Theorem reachable_active_placed w : reachable w -> active_placed (ui w).
Proof.
  induction 1 as [storage|w e w' _ IH Hd].
  - unfold mount. destruct (getSavedInventories storage). left. reflexivity.
  - exact (dispatch_active_placed e w w' IH Hd).
Qed.

Lemma run_reachable es : forall w w',
  reachable w -> run es w = Some w' -> reachable w'.
Proof.
  induction es as [|e es IH]; simpl; intros w w' Hw Hrun.
  - injection Hrun as <-. exact Hw.
  - destruct (dispatch e w) as [w1|] eqn:Hd; [|discriminate].
    eapply IH; [|exact Hrun]. eapply reachable_step; eassumption.
Qed.

(** A description that is not blank is accepted: the processing view is
    entered without an active inventory or an error, and the generation is
    requested for the description as typed. *)
Lemma handleSubmit_accepted st :
  blank (App.description st) = false ->
  handleSubmit st
  = (setActiveInventory None (setView PROCESSING (setError None st)),
     Some (App.description st)).
Proof.
  intros Hblank. unfold handleSubmit.
  destruct (trim (App.description st)) eqn:Htrim; [|reflexivity].
  apply trim_blank in Htrim. congruence.
Qed.

End Machine.

(** C2, as the code has it. In every world the component can be in, an
    active inventory is there only in the result view or in the list view:
    a save from the result view that is written goes to the list view and
    keeps it (one that is not written changes nothing), and "done" on a
    stored record goes to the list view and changes no other cell.
    A transition that enters the idle view finds no active inventory
    there; entered by "new", "try again" or "done", the idle view has the
    error, the description and the file name cleared; entered by the
    cancel of a capture, it has every cell but the view as it was; entered
    by the completion of a capture, it has the error and the description
    cleared and the file name set to the captured file. When the
    description of a video arrives it becomes the description, the view
    and the file name are kept, and the video is no longer being
    analysed. *)
Theorem active_inventory_and_resets (w : World) (e : Event) (w' : World) :
  reachable w -> dispatch e w = Some w' ->
  (activeInventory (ui w) <> None ->
     view (ui w) = SUCCESS \/ view (ui w) = LIST_INVENTORIES)
  /\ (activeInventory (ui w') <> None ->
        view (ui w') = SUCCESS \/ view (ui w') = LIST_INVENTORIES)
  /\ (view (ui w) <> IDLE -> view (ui w') = IDLE ->
        activeInventory (ui w') = None
        /\ match e with
           | CaptureCancel => ui w' = setView IDLE (ui w)
           | CaptureComplete file_name =>
               error (ui w') = None
               /\ App.description (ui w') = []
               /\ fileName (ui w') = Some file_name
           | _ =>
               error (ui w') = None
               /\ App.description (ui w') = []
               /\ fileName (ui w') = None
           end)
  /\ match e with
     | Done =>
         forall inv, activeInventory (ui w) = Some (FromStore inv) ->
           ui w' = setView LIST_INVENTORIES (ui w)
           /\ view (ui w') = LIST_INVENTORIES
           /\ activeInventory (ui w') = Some (FromStore inv)
     | Save inventoryToSave idClock createdClock room =>
         if room
         then view (ui w) = SUCCESS
              /\ view (ui w') = LIST_INVENTORIES
              /\ activeInventory (ui w') = activeInventory (ui w)
              /\ activeInventory (ui w') <> None
         else ui w' = ui w
     | VideoDescribed outcome =>
         forall text, outcome = inr text ->
           App.description (ui w') = text
           /\ isProcessingVideo (ui w') = false
           /\ view (ui w') = view (ui w)
           /\ fileName (ui w') = fileName (ui w)
     | _ => True
     end.
Proof.
  intros Hw Hd.
  assert (Hw' : reachable w') by (eapply reachable_step; eassumption).
  apply reachable_active_placed in Hw, Hw'. unfold active_placed in *.
  split; [intros Ha; destruct Hw as [?|?]; [contradiction | assumption]|].
  split; [intros Ha; destruct Hw' as [?|?]; [contradiction | assumption]|].
  split.
  { intros Hfrom Hinto.
    split; [destruct Hw' as [?|[?|?]]; [assumption | congruence..]|].
    clear Hw Hw'.
    destruct e; simpl in Hd;
      repeat match type of Hd with
        | (if ?g then _ else _) = _ => destruct g eqn:?; [|discriminate]
        | match videoJobs ?w with _ => _ end = _ =>
            destruct (videoJobs w); [discriminate|]
        end;
      repeat match goal with
        | H : formReady _ = true |- _ => apply formReady_true in H as [? ?]
        | H : showsResult _ = true |- _ => apply showsResult_true in H as [? ?]
        | H : is_view _ _ = true |- _ => apply is_view_true in H
        | H : _ && _ = true |- _ => apply andb_true_iff in H as [? ?]
        | H : _ || _ = true |- _ => apply orb_true_iff in H as [?|?]
        end;
      try contradiction.
    - (* GenerationSettled *) injection Hd as <-.
      destruct (generateInventoryFromDescription reply); discriminate Hinto.
    - (* VideoDescribed *) injection Hd as <-.
      destruct outcome; simpl in Hinto; contradiction.
    - (* CaptureCancel *) injection Hd as <-. reflexivity.
    - (* CaptureComplete *) injection Hd as <-. repeat split.
    - (* Save *)
      pose proof (handleSaveInventory_state idClock createdClock room
                    inventoryToSave (ui w) (localStorage w)) as Hs.
      destruct (handleSaveInventory _ _ _ _ _ _) as [st' ls'].
      injection Hd as <-. simpl in *.
      destruct Hs as [->|(saved & ->)]; [contradiction | discriminate Hinto].
    - (* Delete, from the result view *)
      pose proof (handleDeleteInventory_state room id0 (ui w) (localStorage w))
        as (saved & Hs).
      destruct (handleDeleteInventory _ _ _ _) as [st' ls'].
      injection Hd as <-. simpl in *.
      destruct Hs as [->| ->]; [contradiction | discriminate Hinto].
    - (* Delete, from the list view *)
      pose proof (handleDeleteInventory_state room id0 (ui w) (localStorage w))
        as (saved & Hs).
      destruct (handleDeleteInventory _ _ _ _) as [st' ls'].
      injection Hd as <-. simpl in *.
      destruct Hs as [->| ->]; [contradiction | discriminate Hinto].
    - (* Done *) injection Hd as <-. unfold onDone in *.
      destruct (activeInventory (ui w)) as [[?|?]|];
        first [discriminate Hinto | repeat split].
    - (* ViewInventory *) injection Hd as <-. discriminate Hinto.
    - (* New *) injection Hd as <-. repeat split.
    - (* TryAgain *) injection Hd as <-. repeat split. }
  clear Hw Hw'.
  destruct e as [| | | | | |outcome| | |inventoryToSave idClock createdClock room
                | | | | |]; try exact I.
  - (* VideoDescribed *) intros text ->. simpl in Hd.
    destruct (videoJobs w); [discriminate|]. injection Hd as <-.
    repeat split.
  - (* Save *) simpl in Hd.
    destruct (showsResult (ui w)) eqn:Hshow; [|discriminate].
    apply showsResult_true in Hshow as [Hview Hactive].
    destruct room.
    + destruct (saveInventory_written idClock createdClock inventoryToSave
                  (localStorage w)) as (Hret & _ & _).
      unfold handleSaveInventory in Hd.
      destruct (saveInventory idClock createdClock true inventoryToSave
                  (localStorage w)) as [[err|new] ls']; simpl in Hret;
        [discriminate|].
      injection Hd as <-. simpl.
      split; [exact Hview|]. split; [reflexivity|]. split; [reflexivity|].
      intros Hnone. rewrite Hnone in Hactive. destruct Hactive; discriminate.
    + unfold handleSaveInventory in Hd. rewrite saveInventory_full in Hd.
      injection Hd as <-. reflexivity.
  - (* Done *) intros inv Hactive. simpl in Hd.
    destruct (showsResult (ui w)); [|discriminate]. injection Hd as <-.
    simpl. unfold onDone. rewrite Hactive. repeat split. exact Hactive.
Qed.

(** The cancel of a capture started with a description typed in. *)
Lemma active_inventory_and_resets_witness :
  let w := mkWorld (mkState (str "a sofa") CAPTURING_VIDEO None [] None None false)
                   (∅ : gmap string StoredText) 0 in
  let w' := mkWorld (mkState (str "a sofa") IDLE None [] None None false)
                    (∅ : gmap string StoredText) 0 in
  reachable w
  /\ dispatch CaptureCancel w = Some w'
  /\ activeInventory (ui w') = None
  /\ ui w' = setView IDLE (ui w).
Proof.
  intros w w'.
  assert (Hw : reachable w).
  { apply (run_reachable [TypeDescription (str "a sofa"); UseCamera]
             (mount ∅) w (reachable_mount ∅)).
    reflexivity. }
  assert (Hd : dispatch CaptureCancel w = Some w') by reflexivity.
  split; [exact Hw|]. split; [exact Hd|].
  destruct (active_inventory_and_resets w CaptureCancel w' Hw Hd)
    as (_ & _ & Hreset & _).
  apply Hreset; [discriminate | reflexivity].
Defined.

(** C2 as stated fails three times over. After a save from the result
    view the list view holds an active inventory. The cancel of a capture
    enters the idle view with the description typed before still there.
    The completion of a capture enters it with the file name set. *)
Lemma active_inventory_outside_result_view :
  (exists w,
      run [TypeDescription (str "a sofa"); Submit;
           GenerationSettled sampleReply;
           Save sampleInventory 1000 1000 true] (mount ∅) = Some w
      /\ view (ui w) = LIST_INVENTORIES
      /\ activeInventory (ui w) = Some (Generated sampleInventory))
  /\ (exists w,
         run [TypeDescription (str "a sofa"); UseCamera; CaptureCancel]
             (mount ∅) = Some w
         /\ view (ui w) = IDLE
         /\ App.description (ui w) = str "a sofa")
  /\ (exists w,
         run [UseCamera; CaptureComplete (str "clip.webm")] (mount ∅) = Some w
         /\ view (ui w) = IDLE
         /\ fileName (ui w) = Some (str "clip.webm")).
Proof.
  split; [|split]; eexists; (split; [vm_compute; reflexivity|]);
    split; reflexivity.
Qed.

(** C4. Submitting a description that is empty or all white space from the
    idle view is turned down on the spot: no generation is requested, the
    validation message, which is not empty, is set as the error, and the
    view and every other cell stay as they were. *)
Theorem submit_blank_rejected (w : World) :
  view (ui w) = IDLE ->
  blank (App.description (ui w)) = true ->
  handleSubmit (ui w) = (setError (Some validationMessage) (ui w), None)
  /\ view (fst (handleSubmit (ui w))) = IDLE
  /\ error (fst (handleSubmit (ui w))) = Some validationMessage
  /\ validationMessage <> []
  /\ forall w', dispatch Submit w = Some w' ->
       ui w' = setError (Some validationMessage) (ui w)
       /\ localStorage w' = localStorage w.
Proof.
  intros Hview Hblank. apply trim_blank in Hblank.
  assert (Hs : handleSubmit (ui w)
               = (setError (Some validationMessage) (ui w), None)).
  { unfold handleSubmit. rewrite Hblank. reflexivity. }
  split; [exact Hs|]. rewrite Hs. simpl.
  split; [exact Hview|]. split; [reflexivity|]. split; [discriminate|].
  intros w' Hd. destruct (formReady (ui w)); [|discriminate].
  injection Hd as <-. rewrite Hs. split; reflexivity.
Qed.

(** Two blanks for a description. *)
Lemma submit_blank_rejected_witness :
  let w := mkWorld (mkState (str "  ") IDLE None [] None None false)
                   (∅ : gmap string StoredText) 0 in
  handleSubmit (ui w) = (setError (Some validationMessage) (ui w), None).
Proof.
  intros w. apply (submit_blank_rejected w); reflexivity.
Defined.

(** C6. When the generation settles in the processing view: if it is
    rejected, the error view is entered with an error message that is not
    empty and without an active inventory; if it succeeds, the result view
    is entered with the inventory returned as the active inventory. *)
Theorem generation_settled (w : World) (reply : ServiceReply) :
  reachable w -> view (ui w) = PROCESSING ->
  exists w',
    dispatch (GenerationSettled reply) w = Some w'
    /\ match generateInventoryFromDescription reply with
       | inl _ =>
           view (ui w') = ERROR
           /\ (exists message, error (ui w') = Some message /\ message <> [])
           /\ activeInventory (ui w') = None
       | inr result =>
           view (ui w') = SUCCESS
           /\ activeInventory (ui w') = Some (Generated result)
       end.
Proof.
  intros Hw Hview. apply reachable_active_placed in Hw.
  simpl. unfold is_view. rewrite bool_decide_eq_true_2 by exact Hview.
  eexists. split; [reflexivity|].
  pose proof (generate_rejection reply) as Hgen.
  destruct (generateInventoryFromDescription reply) as [e|result]; simpl.
  - rewrite (Hgen e eq_refl). split; [reflexivity|]. split.
    + eexists. split; [reflexivity | discriminate].
    + destruct Hw as [?|[?|?]]; [assumption | congruence..].
  - split; reflexivity.
Qed.

(** The sample reply settles a generation requested for ["a sofa"]. *)
Lemma generation_settled_witness :
  let w := mkWorld (mkState (str "a sofa") PROCESSING None [] None None false)
                   (∅ : gmap string StoredText) 0 in
  reachable w
  /\ exists w', dispatch (GenerationSettled sampleReply) w = Some w'
                /\ view (ui w') = SUCCESS
                /\ activeInventory (ui w') = Some (Generated sampleInventory).
Proof.
  intros w.
  assert (Hw : reachable w).
  { apply (run_reachable [TypeDescription (str "a sofa"); Submit]
             (mount ∅) w (reachable_mount ∅)).
    reflexivity. }
  split; [exact Hw|].
  destruct (generation_settled w sampleReply Hw eq_refl) as (w' & Hd & Hres).
  exists w'. split; [exact Hd | exact Hres].
Defined.

(** The sample reply: the bare ["50"] of its item gets the suffix, the
    rest comes back as it was. *)
Lemma generate_frame_witness :
  generateInventoryFromDescription sampleReply = inr sampleInventory
  /\ transcript sampleInventory = str "Here is the sofa."
  /\ length (inventory sampleInventory) = 1%nat.
Proof.
  assert (Hgen : generateInventoryFromDescription sampleReply
                 = inr sampleInventory) by reflexivity.
  split; [exact Hgen|].
  destruct (generate_frame sampleReply sampleInventory Hgen)
    as (p & items & script & total & Hp & Hi & Hs & Ht & Hd & _ & Hlen & _).
  injection Hp as <-. simpl in Hi, Hs.
  injection Hi as <-. injection Hs as <-.
  split; [exact Hd | exact Hlen].
Defined.

(* ===================================================================== *)
(** ** More on the sort                                                   *)
(* ===================================================================== *)

Section SortAny.

Context {A : Type} (comparefn : A -> A -> Z).

Lemma sort_insert_perm x l : sort_insert comparefn x l ≡ₚ x :: l.
Proof.
  induction l as [|y l IH]; simpl; [reflexivity|].
  destruct (_ <=? 0)%Z; [reflexivity|].
  rewrite IH. apply Permutation_swap.
Qed.

Lemma sort_perm l : sort comparefn l ≡ₚ l.
Proof.
  induction l as [|x l IH]; simpl; [reflexivity|].
  rewrite sort_insert_perm, IH. reflexivity.
Qed.

(** The order the comparison function stands for. *)
Context (R : A -> A -> Prop).
Hypothesis comparefn_R : forall a b, (comparefn a b <= 0)%Z <-> R a b.
Hypothesis R_trans : forall a b c, R a b -> R b c -> R a c.
Hypothesis R_total : forall a b, R a b \/ R b a.

Lemma sort_insert_ordered x l :
  StronglySorted R l -> StronglySorted R (sort_insert comparefn x l).
Proof.
  induction l as [|y l IH]; simpl; intros Hl.
  - repeat constructor.
  - apply StronglySorted_cons in Hl as [Hy Hl].
    destruct (Z.leb_spec (comparefn x y) 0) as [Hle|Hgt].
    + apply comparefn_R in Hle. apply StronglySorted_cons. split.
      * constructor; [exact Hle|].
        eapply Forall_impl; [exact Hy|]. intros z Hz. eapply R_trans; eassumption.
      * apply StronglySorted_cons. split; assumption.
    + assert (Hyx : R y x).
      { destruct (R_total x y) as [Hxy|Hyx]; [|exact Hyx].
        apply comparefn_R in Hxy. lia. }
      apply StronglySorted_cons. split; [|apply IH, Hl].
      rewrite sort_insert_perm. constructor; assumption.
Qed.

Lemma sort_ordered l : StronglySorted R (sort comparefn l).
Proof.
  induction l as [|x l IH]; simpl; [constructor|].
  apply sort_insert_ordered, IH.
Qed.

Lemma sort_ordered_id l : StronglySorted R l -> sort comparefn l = l.
Proof.
  induction l as [|x l IH]; simpl; [reflexivity|]. intros Hl.
  apply StronglySorted_cons in Hl as [Hx Hl]. rewrite (IH Hl).
  destruct l as [|y l]; simpl; [reflexivity|].
  apply Forall_cons in Hx as [Hxy _]. apply comparefn_R in Hxy.
  destruct (Z.leb_spec (comparefn x y) 0); [reflexivity | lia].
Qed.

End SortAny.

(* ===================================================================== *)
(** ** The inventory store: further properties                            *)
(* ===================================================================== *)

(** X1. What [getSavedInventories] returns is sorted, most recent first,
    whatever order the records were stored in; it holds the stored records,
    each as often as stored, or nothing when there is no list to read; and a
    second read returns the same list and leaves [localStorage] as the
    first read left it. *)
Theorem store_list_sorted_and_stable (ls : gmap string StoredText) :
  newest_first (listed ls)
  /\ match ls !! STORAGE_KEY with
     | Some (Serialized inventories) => listed ls ≡ₚ inventories
     | _ => listed ls = []
     end
  /\ getSavedInventories (snd (getSavedInventories ls))
     = (listed ls, snd (getSavedInventories ls)).
Proof.
  split; [apply listed_sorted|]. split; [|apply getSavedInventories_again].
  unfold listed, getSavedInventories.
  destruct (ls !! STORAGE_KEY) as [[| |v]|]; simpl; try reflexivity.
  apply sort_perm.
Qed.

(** X2. A save whose write goes through returns the inventory as given,
    with the id made of the first clock reading and [createdAt] the second;
    the list read afterwards holds that record once more than before and
    every record listed before, and nothing else. *)
Theorem store_save_adds_one
    (idClock createdClock : Z) (x : InventoryData)
    (ls : gmap string StoredText) :
  let saved := saveInventory idClock createdClock true x ls in
  let new := {| saved_data := x;
                id := str "inv_" ++ decimal idClock;
                createdAt := createdClock |} in
  fst saved = inr new
  /\ listed (snd saved) ≡ₚ new :: listed ls
  /\ length (listed (snd saved)) = S (length (listed ls)).
Proof.
  intros saved new.
  destruct (saveInventory_written idClock createdClock x ls) as (Hret & _ & Hl).
  fold saved in Hret, Hl. change (enriched idClock createdClock x) with new in *.
  assert (Hperm : listed (snd saved) ≡ₚ new :: listed ls).
  { rewrite Hl. apply sort_perm. }
  split; [exact Hret|]. split; [exact Hperm|].
  rewrite Hperm. reflexivity.
Qed.

(** X3. When no listed record is more recent than the clock reading of a
    save, the saved record is listed first and the records listed before
    follow in the order they had. *)
Theorem store_save_newest_first
    (idClock createdClock : Z) (x : InventoryData)
    (ls : gmap string StoredText) :
  Forall (fun r => (createdAt r <= createdClock)%Z) (listed ls) ->
  listed (snd (saveInventory idClock createdClock true x ls))
  = {| saved_data := x;
       id := str "inv_" ++ decimal idClock;
       createdAt := createdClock |} :: listed ls.
Proof. apply saveInventory_listed_first. Qed.

(** One record, saved when the clock read 1000, then a save at 2000. *)
Lemma store_save_newest_first_witness :
  let ls : gmap string StoredText :=
    {[ STORAGE_KEY := Serialized [enriched 1000 1000 sampleInventory] ]} in
  listed (snd (saveInventory 2000 2000 true sampleInventory ls))
  = [enriched 2000 2000 sampleInventory; enriched 1000 1000 sampleInventory].
Proof.
  intros ls.
  apply (store_save_newest_first 2000 2000 sampleInventory ls).
  vm_compute. repeat constructor. discriminate.
Defined.

(** X4. Two saves that read different values off the clock for the id
    return records with different ids. *)
Theorem store_save_ids_differ
    (idClock1 idClock2 created1 created2 : Z) (room1 room2 : bool)
    (x y : InventoryData) (ls1 ls2 : gmap string StoredText)
    (r1 r2 : SavedInventoryData) :
  idClock1 <> idClock2 ->
  fst (saveInventory idClock1 created1 room1 x ls1) = inr r1 ->
  fst (saveInventory idClock2 created2 room2 y ls2) = inr r2 ->
  id r1 <> id r2.
Proof.
  intros Hclock H1 H2 Hid. apply Hclock.
  destruct room1; [|rewrite saveInventory_full in H1; discriminate].
  destruct room2; [|rewrite saveInventory_full in H2; discriminate].
  destruct (saveInventory_written idClock1 created1 x ls1) as (H1' & _).
  destruct (saveInventory_written idClock2 created2 y ls2) as (H2' & _).
  rewrite H1' in H1. rewrite H2' in H2.
  injection H1 as <-. injection H2 as <-.
  eapply enriched_id_inj; exact Hid.
Qed.

(** Two saves on an empty store, one millisecond apart. *)
Lemma store_save_ids_differ_witness :
  id (enriched 1000 1000 sampleInventory)
  <> id (enriched 1001 1001 sampleInventory).
Proof.
  apply (store_save_ids_differ 1000 1001 1000 1001 true true
           sampleInventory sampleInventory ∅ ∅);
    [discriminate | reflexivity | reflexivity].
Defined.

(** X5. A save whose write fails throws the error of the source and adds
    no record: the list read afterwards is the list read before. *)
Theorem store_save_write_failure
    (idClock createdClock : Z) (x : InventoryData)
    (ls : gmap string StoredText) :
  let saved := saveInventory idClock createdClock false x ls in
  fst saved
  = inl (ErrorObj (str "Could not save the inventory. Storage might be full."))
  /\ listed (snd saved) = listed ls.
Proof.
  intros saved. unfold saved. rewrite saveInventory_full. simpl.
  split; [reflexivity|].
  unfold listed at 1. rewrite getSavedInventories_again. reflexivity.
Qed.

(** X6. A delete whose write goes through takes every record with the id
    off the list and leaves the others, in their order; a delete whose
    write fails leaves the list as it was. *)
Theorem store_delete_removes_id
    (id0 : jsstring) (ls : gmap string StoredText) :
  listed (deleteInventoryById true id0 ls)
  = filter (fun inv => id inv ≠ id0) (listed ls)
  /\ Forall (fun inv => id inv ≠ id0) (listed (deleteInventoryById true id0 ls))
  /\ listed (deleteInventoryById false id0 ls) = listed ls.
Proof.
  rewrite !deleteInventoryById_listed. split; [reflexivity|].
  split; [|reflexivity].
  apply Forall_forall. intros inv Hinv.
  apply list_elem_of_filter in Hinv as [Hinv _]. exact Hinv.
Qed.

(** X7. Deleting an id that no listed record has leaves the list as it
    was, whether the write goes through or not. *)
Theorem store_delete_absent_noop
    (room : bool) (id0 : jsstring) (ls : gmap string StoredText) :
  Forall (fun inv => id inv ≠ id0) (listed ls) ->
  listed (deleteInventoryById room id0 ls) = listed ls.
Proof. apply deleteInventoryById_absent. Qed.

(** A store with the record ["inv_1000"], asked to delete ["inv_7"]. *)
Lemma store_delete_absent_noop_witness :
  let ls : gmap string StoredText :=
    {[ STORAGE_KEY := Serialized [enriched 1000 1000 sampleInventory] ]} in
  listed (deleteInventoryById true (str "inv_7") ls)
  = [enriched 1000 1000 sampleInventory].
Proof.
  intros ls.
  change [enriched 1000 1000 sampleInventory] with (listed ls).
  apply (store_delete_absent_noop true (str "inv_7") ls).
  vm_compute. repeat constructor. discriminate.
Defined.

(** X8. Deleting the same id twice leaves [localStorage] as deleting it
    once does. *)
Theorem store_delete_idempotent
    (room : bool) (id0 : jsstring) (ls : gmap string StoredText) :
  deleteInventoryById room id0 (deleteInventoryById room id0 ls)
  = deleteInventoryById room id0 ls.
Proof. apply deleteInventoryById_idempotent. Qed.

(** X9. When no listed record has the id a save is about to give, saving
    and then deleting that id brings the list back to what it was. *)
Theorem store_save_delete_round_trip
    (idClock createdClock : Z) (x : InventoryData)
    (ls : gmap string StoredText) (r : SavedInventoryData) :
  Forall (fun inv => id inv ≠ str "inv_" ++ decimal idClock) (listed ls) ->
  fst (saveInventory idClock createdClock true x ls) = inr r ->
  listed (deleteInventoryById true (id r)
            (snd (saveInventory idClock createdClock true x ls)))
  = listed ls.
Proof.
  intros Hfresh Hr.
  destruct (saveInventory_written idClock createdClock x ls) as (Hret & _).
  rewrite Hret in Hr. injection Hr as <-. simpl.
  apply save_delete_round_trip, Hfresh.
Qed.

(** A store with the record ["inv_1000"]: save at 2000, delete
    ["inv_2000"]. *)
Lemma store_save_delete_round_trip_witness :
  let ls : gmap string StoredText :=
    {[ STORAGE_KEY := Serialized [enriched 1000 1000 sampleInventory] ]} in
  listed (deleteInventoryById true (str "inv_2000")
            (snd (saveInventory 2000 2000 true sampleInventory ls)))
  = [enriched 1000 1000 sampleInventory].
Proof.
  intros ls.
  change [enriched 1000 1000 sampleInventory] with (listed ls).
  apply (store_save_delete_round_trip 2000 2000 sampleInventory ls
           (enriched 2000 2000 sampleInventory));
    [|reflexivity].
  vm_compute. repeat constructor. discriminate.
Defined.

(** X10. The store reads and writes its own key only: whatever
    [localStorage] holds under another key is there, unchanged, after a
    read, a save and a delete. *)
Theorem store_other_keys_untouched
    (key : string) (idClock createdClock : Z) (room : bool)
    (x : InventoryData) (id0 : jsstring) (ls : gmap string StoredText) :
  key <> STORAGE_KEY ->
  snd (getSavedInventories ls) !! key = ls !! key
  /\ snd (saveInventory idClock createdClock room x ls) !! key = ls !! key
  /\ deleteInventoryById room id0 ls !! key = ls !! key.
Proof.
  intros Hkey.
  assert (Hread : snd (getSavedInventories ls) !! key = ls !! key).
  { unfold getSavedInventories.
    destruct (ls !! STORAGE_KEY) as [[| |v]|]; simpl; try reflexivity.
    apply lookup_delete_ne. congruence. }
  split; [exact Hread|]. split.
  - unfold saveInventory.
    destruct (getSavedInventories ls) as [allInventories ls1]; simpl in *.
    destruct room; simpl; [|exact Hread].
    rewrite lookup_insert_ne by congruence. exact Hread.
  - rewrite deleteInventoryById_unfold. destruct room; [|exact Hread].
    rewrite lookup_insert_ne by congruence. exact Hread.
Qed.

(** Another entry of [localStorage], kept through a delete. *)
Lemma store_other_keys_untouched_witness :
  let ls : gmap string StoredText :=
    {[ "theme"%string := EmptyText ]} in
  deleteInventoryById true (str "inv_7") ls !! "theme"%string
  = Some EmptyText.
Proof.
  intros ls.
  change (Some EmptyText) with (ls !! "theme"%string).
  apply (store_other_keys_untouched "theme" 0 0 true sampleInventory
           (str "inv_7") ls).
  discriminate.
Defined.

(* ===================================================================== *)
(** ** The generation client: further properties                          *)
(* ===================================================================== *)

Section EnsureUnitsMore.

Lemma has_digit_app s t : has_digit (s ++ t) = has_digit s || has_digit t.
Proof. unfold has_digit. apply existsb_app. Qed.

Lemma ensureUnits_trimmed s : trim (ensureUnits s) = ensureUnits s.
Proof.
  rewrite ensureUnits_unfold.
  destruct (has_unit_token (trim s)); [apply trim_idem|].
  destruct (has_digit (trim s)) eqn:Hd; [|apply trim_idem].
  apply suffixed_trimmed; [exact Hd | apply trim_headed].
Qed.

(** [ensureUnits] returns the empty string on blank strings and on no
    other. *)
Lemma ensureUnits_empty s : ensureUnits s = [] <-> blank s = true.
Proof.
  rewrite <- trim_blank, ensureUnits_unfold. split.
  - destruct (has_unit_token (trim s)); [tauto|].
    destruct (has_digit (trim s)); [|tauto].
    intros H. apply app_eq_nil in H as [_ H]. discriminate.
  - intros ->. reflexivity.
Qed.

(** What a successful generation was made of. *)
Lemma generate_success reply d :
  generateInventoryFromDescription reply = inr d ->
  exists p items script total,
    reply = Parsed p
    /\ parsed_inventory p = Some items
    /\ parsed_transcript p = Some script /\ script <> []
    /\ parsed_totalEstimatedSize p = Some total /\ total <> []
    /\ transcript d = script
    /\ totalEstimatedSize d = ensureUnits total
    /\ Forall2 same_but_size (inventory d) items.
Proof.
  unfold generateInventoryFromDescription. intros H.
  destruct reply as [reason|reason|p]; [discriminate H..|].
  pose proof (tryGenerate_parsed p) as Hp.
  destruct (tryGenerate (Parsed p)) as [e|d']; [discriminate|].
  injection H as ->. destruct Hp as (items & script & total & Hp).
  exists p, items, script, total. split; [reflexivity | exact Hp].
Qed.

End EnsureUnitsMore.

(** X11. The result of [ensureUnits] bears a unit token exactly when the
    string given bears one or contains a digit: a string with neither, such
    as ["variable"], comes back without a unit. *)
Theorem ensureUnits_unit_iff (s : jsstring) :
  has_unit_token (ensureUnits s) = has_unit_token s || has_digit s.
Proof.
  rewrite ensureUnits_by_content.
  destruct (has_unit_token s) eqn:Hu; simpl.
  - rewrite has_unit_token_trim. exact Hu.
  - destruct (has_digit s).
    + apply suffixed_has_unit.
    + rewrite has_unit_token_trim. exact Hu.
Qed.

(** X12. The result of [ensureUnits] has no white space in front or behind,
    contains a digit exactly when the string given does, and is empty
    exactly when the string given is blank. *)
Theorem ensureUnits_result_shape (s : jsstring) :
  trim (ensureUnits s) = ensureUnits s
  /\ has_digit (ensureUnits s) = has_digit s
  /\ (ensureUnits s = [] <-> blank s = true).
Proof.
  split; [apply ensureUnits_trimmed|]. split; [|apply ensureUnits_empty].
  rewrite ensureUnits_by_content.
  destruct (has_unit_token s); [apply has_digit_trim|].
  destruct (has_digit s) eqn:Hd.
  - rewrite has_digit_app, has_digit_trim, Hd. reflexivity.
  - rewrite has_digit_trim. exact Hd.
Qed.

(** X13. The post-processing has nothing left to do on what a successful
    generation returns: when the total is not empty, the same inventory
    sent back as a reply is returned as it is. *)
Theorem generate_again (reply : ServiceReply) (d : InventoryData) :
  generateInventoryFromDescription reply = inr d ->
  totalEstimatedSize d <> [] ->
  generateInventoryFromDescription
    (Parsed {| parsed_inventory := Some (inventory d);
               parsed_transcript := Some (transcript d);
               parsed_totalEstimatedSize := Some (totalEstimatedSize d) |})
  = inr d.
Proof.
  intros Hgen Htotal.
  destruct (generate_success reply d Hgen)
    as (p & items & script & total & -> & Hi & Hs & Hne & Ht & _ & Hd & Hsize & Hall).
  assert (Hscript : transcript d <> []) by (rewrite Hd; exact Hne).
  unfold generateInventoryFromDescription, tryGenerate. simpl.
  destruct (transcript d) as [|c script'] eqn:Htr; [contradiction|].
  destruct (totalEstimatedSize d) as [|c' total'] eqn:Htot; [contradiction|].
  simpl. f_equal. destruct d as [inv tr tot]. simpl in *. subst tr tot.
  f_equal.
  - clear -Hall. induction Hall as [|out item outs items' Hout _ IH];
      simpl; [reflexivity|].
    rewrite IH. f_equal.
    destruct Hout as (_ & _ & _ & _ & Hsz).
    destruct out as [n c d t e]. simpl in *. f_equal.
    rewrite Hsz. apply ensureUnits_idempotent.
  - rewrite Hsize. apply ensureUnits_idempotent.
Qed.

(** The sample inventory, sent back as a reply. *)
Lemma generate_again_witness :
  generateInventoryFromDescription
    (Parsed {| parsed_inventory := Some (inventory sampleInventory);
               parsed_transcript := Some (transcript sampleInventory);
               parsed_totalEstimatedSize :=
                 Some (totalEstimatedSize sampleInventory) |})
  = inr sampleInventory.
Proof.
  apply (generate_again sampleReply sampleInventory);
    [reflexivity | discriminate].
Defined.

(** X14. A [totalEstimatedSize] of white space gets past the check for
    missing fields, and the generation then succeeds with an empty total:
    the total returned is empty exactly when the total of the reply is
    blank. *)
Theorem generate_blank_total (p : ParsedData) (d : InventoryData) :
  generateInventoryFromDescription (Parsed p) = inr d ->
  exists total,
    parsed_totalEstimatedSize p = Some total
    /\ total <> []
    /\ (totalEstimatedSize d = [] <-> blank total = true).
Proof.
  intros Hgen.
  destruct (generate_success (Parsed p) d Hgen)
    as (p' & items & script & total & Hp & _ & _ & _ & Ht & Hne & _ & Hsize & _).
  injection Hp as <-. exists total. split; [exact Ht|].
  split; [exact Hne|].
  rewrite Hsize. apply ensureUnits_empty.
Qed.

(** A reply whose total is two blanks. *)
Lemma generate_blank_total_witness :
  let p := {| parsed_inventory := Some [];
              parsed_transcript := Some (str "Nothing here.");
              parsed_totalEstimatedSize := Some (str "  ") |} in
  generateInventoryFromDescription (Parsed p)
  = inr {| inventory := [];
           transcript := str "Nothing here.";
           totalEstimatedSize := [] |}
  /\ exists total,
       parsed_totalEstimatedSize p = Some total
       /\ total <> []
       /\ (totalEstimatedSize
             {| inventory := [];
                transcript := str "Nothing here.";
                totalEstimatedSize := [] |} = [] <-> blank total = true).
Proof.
  intros p.
  assert (Hgen : generateInventoryFromDescription (Parsed p)
                 = inr {| inventory := [];
                          transcript := str "Nothing here.";
                          totalEstimatedSize := [] |}) by reflexivity.
  split; [exact Hgen|].
  exact (generate_blank_total p _ Hgen).
Defined.

(* ===================================================================== *)
(** ** The view state machine: further properties                         *)
(* ===================================================================== *)

Section MachineMore.

Lemma handleSaveInventory_cells idClock createdClock room inv st ls :
  (fst (handleSaveInventory idClock createdClock room inv st ls) = st
   /\ listed (snd (handleSaveInventory idClock createdClock room inv st ls))
      = listed ls)
  \/ (exists new,
        fst (handleSaveInventory idClock createdClock room inv st ls)
        = setView LIST_INVENTORIES
            (setSavedInventories (new :: savedInventories st) st)
        /\ listed (snd (handleSaveInventory idClock createdClock room inv st ls))
           ≡ₚ new :: listed ls).
Proof.
  unfold handleSaveInventory. destruct room.
  - right. exists (enriched idClock createdClock inv).
    destruct (saveInventory_written idClock createdClock inv ls)
      as (Hret & _ & Hl).
    destruct (saveInventory idClock createdClock true inv ls) as [[e|r] ls'];
      simpl in *; [discriminate|].
    injection Hret as ->. split; [reflexivity|].
    rewrite Hl.
    exact (sort_perm byCreatedAtDesc
             (enriched idClock createdClock inv :: listed ls)).
  - left. rewrite saveInventory_full. simpl. split; [reflexivity|].
    unfold listed at 1. rewrite getSavedInventories_again. reflexivity.
Qed.

Lemma handleDeleteInventory_cells room id0 st ls :
  let st' := fst (handleDeleteInventory room id0 st ls) in
  let ls' := snd (handleDeleteInventory room id0 st ls) in
  listed ls' = listed (deleteInventoryById room id0 ls)
  /\ (st' = setSavedInventories (listed ls') st
      /\ (forall inv, activeInventory st = Some (FromStore inv) -> id inv <> id0)
      \/ st' = setActiveInventory None
                 (setView LIST_INVENTORIES (setSavedInventories (listed ls') st))).
Proof.
  unfold handleDeleteInventory.
  pose proof (getSavedInventories_again (deleteInventoryById room id0 ls))
    as Hagain.
  unfold listed in *.
  destruct (getSavedInventories (deleteInventoryById room id0 ls))
    as [updatedList ls2]; simpl in *.
  rewrite Hagain. simpl. split; [reflexivity|].
  destruct (activeInventory st) as [[result|inv]|].
  - left. split; [reflexivity | discriminate].
  - destruct (decide (id inv = id0)) as [Heq|Hne].
    + right. reflexivity.
    + left. split; [reflexivity|]. intros inv' Hinv'. congruence.
  - left. split; [reflexivity | discriminate].
Qed.

Ltac dispatch_guards Hd :=
  simpl in Hd;
  repeat match type of Hd with
    | (if ?g then _ else _) = _ => destruct g eqn:?; [|discriminate]
    | match videoJobs ?w with _ => _ end = _ =>
        destruct (videoJobs w) eqn:?; [discriminate|]
    end;
  repeat match goal with
    | H : formReady _ = true |- _ => apply formReady_true in H as [? ?]
    | H : showsResult _ = true |- _ => apply showsResult_true in H as [? ?]
    | H : is_view _ _ = true |- _ => apply is_view_true in H
    end.

Ltac unchanged Hinv :=
  destruct Hinv as (Hshow & Herr & Hvideo & Hsaved);
  repeat split; simpl; intros;
  first [ assumption | discriminate | congruence | lia
        | apply Hshow; assumption | apply Herr; assumption
        | apply Hvideo; assumption | eauto ].

(** One event keeps the cells coherent. *)
Lemma dispatch_coherent e w w' :
  coherent w -> dispatch e w = Some w' -> coherent w'.
Proof.
  unfold coherent. intros Hinv Hd.
  destruct e; dispatch_guards Hd.
  - (* TypeDescription *) injection Hd as <-. unchanged Hinv.
  - (* ChooseFile *) injection Hd as <-. destruct file; unchanged Hinv.
  - (* UseCamera *) injection Hd as <-. unchanged Hinv.
  - (* ViewSaved *) injection Hd as <-. unchanged Hinv.
  - (* Submit *) injection Hd as <-. unfold handleSubmit.
    destruct (trim _); unchanged Hinv.
  - (* GenerationSettled *) injection Hd as <-.
    destruct (generateInventoryFromDescription reply); unchanged Hinv.
  - (* VideoDescribed *) injection Hd as <-.
    destruct outcome; unchanged Hinv.
  - (* CaptureCancel *) injection Hd as <-. unchanged Hinv.
  - (* CaptureComplete *) injection Hd as <-. unchanged Hinv.
  - (* Save *)
    pose proof (handleSaveInventory_cells idClock createdClock room
                  inventoryToSave (ui w) (localStorage w)) as Hs.
    destruct (handleSaveInventory _ _ _ _ _ _) as [st' ls'].
    injection Hd as <-. simpl in *.
    destruct Hinv as (Hshow & Herr & Hvideo & Hsaved).
    destruct Hs as [[-> Hl]|(new & -> & Hl)]; simpl.
    + rewrite Hl. auto.
    + repeat split; try discriminate; [exact Hvideo|].
      rewrite Hl, Hsaved. reflexivity.
  - (* Delete *)
    pose proof (handleDeleteInventory_cells room id0 (ui w) (localStorage w))
      as Hs.
    destruct (handleDeleteInventory _ _ _ _) as [st' ls'].
    injection Hd as <-. simpl in *.
    destruct Hinv as (Hshow & Herr & Hvideo & Hsaved).
    destruct Hs as [_ [[-> _]| ->]]; simpl;
      repeat split; auto; discriminate.
  - (* Done *) injection Hd as <-. unfold onDone.
    destruct (activeInventory (ui w)) as [[?|?]|]; unchanged Hinv.
  - (* ViewInventory *) injection Hd as <-. unchanged Hinv.
  - (* New *) injection Hd as <-. unchanged Hinv.
  - (* TryAgain *) injection Hd as <-. unchanged Hinv.
Qed.

(** The cells are coherent in every world the component can be in. *)
Lemma reachable_coherent w : reachable w -> coherent w.
Proof.
  induction 1 as [storage|w e w' _ IH Hd].
  - unfold coherent, mount.
    pose proof (getSavedInventories_again storage) as Hagain.
    unfold listed in *.
    destruct (getSavedInventories storage) as [inventories storage'].
    simpl in *. rewrite Hagain. simpl.
    repeat split; try discriminate. reflexivity.
  - exact (dispatch_coherent e w w' IH Hd).
Qed.

End MachineMore.

(** X15. In every world the component can be in, the result view has an
    active inventory to show and the error view has an error message to
    show. *)
Theorem views_have_content (w : World) :
  reachable w ->
  (view (ui w) = SUCCESS -> exists shown, activeInventory (ui w) = Some shown)
  /\ (view (ui w) = ERROR -> exists message, error (ui w) = Some message).
Proof.
  intros Hw. destruct (reachable_coherent w Hw) as (Hshow & Herr & _ & _).
  split; intros Hview; [apply Hshow, Hview | apply Herr, Hview].
Qed.

(** The error view after a rejected generation. *)
Lemma views_have_content_witness :
  exists w,
    run [TypeDescription (str "a sofa"); Submit;
         GenerationSettled (CallRejected OtherValue)] (mount ∅) = Some w
    /\ view (ui w) = ERROR
    /\ exists message, error (ui w) = Some message.
Proof.
  eexists. split; [vm_compute; reflexivity|]. split; [reflexivity|].
  eapply views_have_content; [|reflexivity].
  apply (run_reachable
           [TypeDescription (str "a sofa"); Submit;
            GenerationSettled (CallRejected OtherValue)]
           (mount ∅)); [apply reachable_mount|].
  vm_compute. reflexivity.
Defined.

(** X16. While the form is locked for the analysis of a video, a
    description is awaited, and the form is unlocked when it settles,
    whichever way. *)
Theorem video_lock_released (w : World) (outcome : Thrown + jsstring) :
  reachable w ->
  isProcessingVideo (ui w) = true ->
  (0 < videoJobs w)%nat
  /\ exists w',
       dispatch (VideoDescribed outcome) w = Some w'
       /\ isProcessingVideo (ui w') = false
       /\ view (ui w') = view (ui w).
Proof.
  intros Hw Hlocked.
  destruct (reachable_coherent w Hw) as (_ & _ & Hvideo & _).
  specialize (Hvideo Hlocked). split; [exact Hvideo|].
  simpl. destruct (videoJobs w) as [|jobs]; [lia|].
  eexists. split; [reflexivity|]. destruct outcome; split; reflexivity.
Qed.

(** A captured file waiting for its description. *)
Lemma video_lock_released_witness :
  exists w,
    run [UseCamera; CaptureComplete (str "clip.webm")] (mount ∅) = Some w
    /\ isProcessingVideo (ui w) = true
    /\ (0 < videoJobs w)%nat.
Proof.
  eexists. split; [vm_compute; reflexivity|]. split; [reflexivity|].
  eapply (video_lock_released _ (inr (str "A sofa and a lamp.")));
    [|reflexivity].
  apply (run_reachable
           [UseCamera; CaptureComplete (str "clip.webm")]
           (mount ∅)); [apply reachable_mount|].
  vm_compute. reflexivity.
Defined.

(** X17. In every world the component can be in, the saved inventories
    the component holds are the records the store lists, each as often. *)
Theorem saved_cell_matches_store (w : World) :
  reachable w -> savedInventories (ui w) ≡ₚ listed (localStorage w).
Proof. intros Hw. apply (reachable_coherent w Hw). Qed.

(** After a generation and a save. *)
Lemma saved_cell_matches_store_witness :
  exists w,
    run [TypeDescription (str "a sofa"); Submit;
         GenerationSettled sampleReply;
         Save sampleInventory 1000 1000 true] (mount ∅) = Some w
    /\ savedInventories (ui w) ≡ₚ listed (localStorage w).
Proof.
  eexists. split; [vm_compute; reflexivity|].
  apply saved_cell_matches_store.
  apply (run_reachable
           [TypeDescription (str "a sofa"); Submit;
            GenerationSettled sampleReply;
            Save sampleInventory 1000 1000 true]
           (mount ∅)); [apply reachable_mount|].
  vm_compute. reflexivity.
Defined.

(** X18. After a delete whose write goes through, no record with the id is
    left among the saved inventories the component holds or in the store's
    list, and the active inventory is not a stored record with that id. *)
Theorem delete_leaves_no_trace (w : World) (id0 : jsstring) (w' : World) :
  dispatch (Delete id0 true) w = Some w' ->
  Forall (fun inv => id inv ≠ id0) (savedInventories (ui w'))
  /\ Forall (fun inv => id inv ≠ id0) (listed (localStorage w'))
  /\ forall inv, activeInventory (ui w') = Some (FromStore inv) -> id inv <> id0.
Proof.
  intros Hd. simpl in Hd.
  destruct (showsResult (ui w) || is_view LIST_INVENTORIES (ui w));
    [|discriminate].
  pose proof (handleDeleteInventory_cells true id0 (ui w) (localStorage w))
    as (Hl & Hs).
  destruct (handleDeleteInventory true id0 (ui w) (localStorage w))
    as [st' ls'].
  injection Hd as <-. simpl in *.
  assert (Hgone : Forall (fun inv => id inv ≠ id0) (listed ls')).
  { rewrite Hl, deleteInventoryById_listed.
    apply Forall_forall. intros inv Hinv.
    apply list_elem_of_filter in Hinv as [Hinv _]. exact Hinv. }
  destruct Hs as [[-> Hactive]| ->]; simpl;
    (split; [exact Hgone|]); (split; [exact Hgone|]);
    [exact Hactive | discriminate].
Qed.

(** The record saved at 1000, deleted from the list view. *)
Lemma delete_leaves_no_trace_witness :
  exists w w',
    run [TypeDescription (str "a sofa"); Submit;
         GenerationSettled sampleReply;
         Save sampleInventory 1000 1000 true] (mount ∅) = Some w
    /\ dispatch (Delete (str "inv_1000") true) w = Some w'
    /\ Forall (fun inv => id inv ≠ str "inv_1000") (savedInventories (ui w')).
Proof.
  eexists. eexists. split; [vm_compute; reflexivity|].
  match goal with
  | |- ?d = Some _ /\ _ =>
      let r := eval vm_compute in d in
      match r with
      | Some ?x => assert (Hd : d = Some x) by (vm_compute; reflexivity)
      end
  end.
  split; [exact Hd|].
  apply (delete_leaves_no_trace _ _ _ Hd).
Defined.

(** X19. Submitting a description that is not blank, from the idle view
    with the form unlocked, enters the processing view with the error and
    the active inventory cleared, and requests the generation for the
    description as typed, white space around it included. *)
Theorem submit_accepted (w : World) :
  view (ui w) = IDLE ->
  isProcessingVideo (ui w) = false ->
  blank (App.description (ui w)) = false ->
  snd (handleSubmit (ui w)) = Some (App.description (ui w))
  /\ exists w',
       dispatch Submit w = Some w'
       /\ view (ui w') = PROCESSING
       /\ error (ui w') = None
       /\ activeInventory (ui w') = None
       /\ App.description (ui w') = App.description (ui w).
Proof.
  intros Hview Hfree Hblank.
  rewrite (handleSubmit_accepted _ Hblank).
  split; [reflexivity|]. simpl.
  unfold formReady, is_view.
  rewrite bool_decide_eq_true_2 by exact Hview. rewrite Hfree. simpl.
  rewrite (handleSubmit_accepted _ Hblank).
  eexists. split; [reflexivity|]. repeat split.
Qed.

(** A description with blanks around it. *)
Lemma submit_accepted_witness :
  let w := mkWorld (mkState (str " a sofa ") IDLE None [] None None false)
                   (∅ : gmap string StoredText) 0 in
  snd (handleSubmit (ui w)) = Some (str " a sofa ").
Proof.
  intros w. apply (submit_accepted w); reflexivity.
Defined.

(** X20. No view is a dead end: from every world the component can be in,
    at most two events lead to the idle view. *)
Theorem idle_within_reach (w : World) :
  reachable w ->
  exists es w',
    run es w = Some w' /\ view (ui w') = IDLE /\ (length es <= 2)%nat.
Proof.
  intros Hw. destruct (reachable_coherent w Hw) as (Hshow & _ & _ & _).
  destruct (view (ui w)) eqn:Hview.
  - exists [], w. repeat split; [exact Hview | simpl; lia].
  - exists [GenerationSettled (CallRejected OtherValue); TryAgain].
    simpl. unfold is_view. rewrite bool_decide_eq_true_2 by exact Hview.
    simpl. eexists. repeat split. lia.
  - destruct (Hshow eq_refl) as [shown Hshown].
    assert (Hresult : showsResult (ui w) = true).
    { unfold showsResult, is_view.
      rewrite bool_decide_eq_true_2 by exact Hview.
      rewrite bool_decide_eq_true_2 by (rewrite Hshown; eauto). reflexivity. }
    destruct shown as [result|inv].
    + exists [Done]. simpl. rewrite Hresult. unfold onDone. rewrite Hshown.
      eexists. repeat split. simpl. lia.
    + exists [Done; New]. simpl. rewrite Hresult. unfold onDone.
      rewrite Hshown. simpl. eexists. repeat split. lia.
  - exists [TryAgain]. simpl. unfold is_view.
    rewrite bool_decide_eq_true_2 by exact Hview.
    eexists. repeat split. simpl. lia.
  - exists [New]. simpl. unfold is_view.
    rewrite bool_decide_eq_true_2 by exact Hview.
    eexists. repeat split. simpl. lia.
  - exists [CaptureCancel]. simpl. unfold is_view.
    rewrite bool_decide_eq_true_2 by exact Hview.
    eexists. repeat split. simpl. lia.
Qed.

(** From the processing view. *)
Lemma idle_within_reach_witness :
  exists w,
    run [TypeDescription (str "a sofa"); Submit] (mount ∅) = Some w
    /\ view (ui w) = PROCESSING
    /\ exists es w',
         run es w = Some w' /\ view (ui w') = IDLE /\ (length es <= 2)%nat.
Proof.
  eexists. split; [vm_compute; reflexivity|]. split; [reflexivity|].
  apply idle_within_reach.
  apply (run_reachable
           [TypeDescription (str "a sofa"); Submit]
           (mount ∅)); [apply reachable_mount|].
  vm_compute. reflexivity.
Defined.

(* ===================================================================== *)
(** ** The list page: the number read from a size                         *)
(* ===================================================================== *)

Section MatchNumber.

Lemma digits_split s :
  s = fst (digits s) ++ snd (digits s)
  /\ forallb is_digit (fst (digits s)) = true
  /\ match snd (digits s) with
     | [] => True
     | c :: _ => is_digit c = false
     end.
Proof.
  induction s as [|c s (IH1 & IH2 & IH3)]; simpl; [auto|].
  destruct (is_digit c) eqn:Hc; [|simpl; auto].
  destruct (digits s) as [run after]; simpl in *.
  rewrite Hc, IH2, <- IH1. auto.
Qed.

Lemma digits_nondigit c s : is_digit c = false -> digits (c :: s) = ([], c :: s).
Proof. simpl. intros ->. reflexivity. Qed.

Lemma digits_digit c s :
  is_digit c = true ->
  digits (c :: s) = (c :: fst (digits s), snd (digits s)).
Proof. simpl. intros ->. destruct (digits s); reflexivity. Qed.

Lemma has_digit_cons c s :
  has_digit (c :: s) = false -> is_digit c = false /\ has_digit s = false.
Proof. unfold has_digit. simpl. apply orb_false_iff. Qed.

Lemma digits_no_digit t : has_digit t = false -> digits t = ([], t).
Proof.
  destruct t as [|c t]; [reflexivity|].
  intros H. apply has_digit_cons in H as [Hc _]. apply digits_nondigit, Hc.
Qed.

(** Code units that are not digits, put behind a string, stay behind its
    run of digits. *)
Lemma digits_app x t :
  has_digit t = false ->
  digits (x ++ t) = (fst (digits x), snd (digits x) ++ t).
Proof.
  intros Ht. induction x as [|c x IH]; simpl.
  - apply digits_no_digit, Ht.
  - destruct (is_digit c); [|reflexivity].
    rewrite IH. destruct (digits x); reflexivity.
Qed.

(** Digits in front of a string are the front of its run of digits. *)
Lemma digits_front x : forall rest,
  forallb is_digit x = true ->
  exists more, fst (digits (x ++ rest)) = x ++ more.
Proof.
  induction x as [|c x IH]; intros rest Hx; simpl.
  - eexists. reflexivity.
  - simpl in Hx. apply andb_true_iff in Hx as [Hc Hx]. rewrite Hc.
    destruct (IH rest Hx) as (more & Hmore).
    destruct (digits (x ++ rest)) as [run after]; simpl in *.
    exists more. rewrite Hmore. reflexivity.
Qed.

Lemma fractionHere_dot rest :
  fractionHere (46 :: rest)
  = match fst (digits rest) with
    | [] => []
    | fraction => 46 :: fraction
    end.
Proof. simpl. destruct (digits rest) as [[|? ?] ?]; reflexivity. Qed.

Lemma fractionHere_not_dot c rest : c <> 46 -> fractionHere (c :: rest) = [].
Proof.
  intros Hc. destruct c as [|q]; [reflexivity|].
  repeat (destruct q as [q|q|]; try reflexivity). congruence.
Qed.

Lemma fractionHere_app after t :
  has_digit t = false -> fractionHere (after ++ t) = fractionHere after.
Proof.
  intros Ht. destruct after as [|c rest]; simpl app.
  - destruct t as [|c t]; [reflexivity|].
    destruct (N.eq_dec c 46) as [->|Hc]; [|apply fractionHere_not_dot, Hc].
    apply has_digit_cons in Ht as [_ Ht].
    rewrite fractionHere_dot, (digits_no_digit t Ht). reflexivity.
  - destruct (N.eq_dec c 46) as [->|Hc].
    + rewrite !fractionHere_dot, (digits_app rest t Ht). reflexivity.
    + rewrite !fractionHere_not_dot by exact Hc. reflexivity.
Qed.

Lemma matchNumberHere_app x t :
  has_digit t = false -> matchNumberHere (x ++ t) = matchNumberHere x.
Proof.
  intros Ht. unfold matchNumberHere. rewrite (digits_app x t Ht).
  destruct (digits x) as [[|d whole] after]; simpl; [reflexivity|].
  rewrite (fractionHere_app after t Ht). reflexivity.
Qed.

Lemma matchNumberHere_nondigit c s :
  is_digit c = false -> matchNumberHere (c :: s) = None.
Proof.
  intros Hc. unfold matchNumberHere.
  rewrite (digits_nondigit c s Hc). reflexivity.
Qed.

Lemma matchNumberHere_digit c s :
  is_digit c = true -> exists found, matchNumberHere (c :: s) = Some found.
Proof.
  intros Hc. unfold matchNumberHere. rewrite (digits_digit c s Hc).
  eexists. reflexivity.
Qed.

Lemma matchNumber_cons c s :
  matchNumber (c :: s)
  = match matchNumberHere (c :: s) with
    | Some found => Some found
    | None => matchNumber s
    end.
Proof. reflexivity. Qed.

Lemma matchNumber_nondigit c s :
  is_digit c = false -> matchNumber (c :: s) = matchNumber s.
Proof.
  intros Hc. rewrite matchNumber_cons, (matchNumberHere_nondigit c s Hc).
  reflexivity.
Qed.

Lemma matchNumber_no_digit s : has_digit s = false -> matchNumber s = None.
Proof.
  induction s as [|c s IH]; [reflexivity|].
  intros H. apply has_digit_cons in H as [Hc Hs].
  rewrite (matchNumber_nondigit c s Hc). apply IH, Hs.
Qed.

(** Code units that are not digits, in front of a string or behind it,
    change nothing to the number found. *)
Lemma matchNumber_behind t s :
  has_digit t = false -> matchNumber (t ++ s) = matchNumber s.
Proof.
  induction t as [|c t IH]; [reflexivity|].
  intros H. apply has_digit_cons in H as [Hc Ht].
  change ((c :: t) ++ s) with (c :: (t ++ s)).
  rewrite (matchNumber_nondigit c _ Hc). apply IH, Ht.
Qed.

Lemma matchNumber_front s t :
  has_digit t = false -> matchNumber (s ++ t) = matchNumber s.
Proof.
  intros Ht. induction s as [|c s IH].
  - simpl app. rewrite (matchNumber_no_digit t Ht). reflexivity.
  - change ((c :: s) ++ t) with (c :: (s ++ t)).
    rewrite !matchNumber_cons.
    change (c :: s ++ t) with ((c :: s) ++ t).
    rewrite (matchNumberHere_app (c :: s) t Ht), IH. reflexivity.
Qed.

Lemma blank_no_digit ws : blank ws = true -> has_digit ws = false.
Proof.
  unfold blank, has_digit. induction ws as [|c ws IH]; [reflexivity|].
  simpl. intros H. apply andb_true_iff in H as [Hc Hws].
  rewrite (IH Hws), orb_false_r.
  destruct (is_digit c) eqn:Hd; [|reflexivity].
  apply digit_not_space in Hd. congruence.
Qed.

Lemma matchNumber_trim s : matchNumber (trim s) = matchNumber s.
Proof.
  destruct (trim_split s) as (ws1 & ws2 & Heq & H1 & H2).
  rewrite Heq at 2.
  rewrite (matchNumber_behind ws1 _ (blank_no_digit _ H1)).
  rewrite (matchNumber_front _ ws2 (blank_no_digit _ H2)). reflexivity.
Qed.

Lemma matchNumber_ensureUnits s : matchNumber (ensureUnits s) = matchNumber s.
Proof.
  rewrite ensureUnits_unfold.
  destruct (has_unit_token (trim s)); [apply matchNumber_trim|].
  destruct (has_digit (trim s)); [|apply matchNumber_trim].
  rewrite matchNumber_front by reflexivity. apply matchNumber_trim.
Qed.

(** A run of digits that is not empty is what [\d+] matches, and the
    other way round. *)
Lemma lang_digits_plus run :
  run <> [] -> forallb is_digit run = true ->
  lang (Plus (Cls is_digit)) run.
Proof.
  destruct run as [|c run]; [congruence|]. intros _. simpl.
  intros H. apply andb_true_iff in H as [Hc Hrun].
  apply (lang_cat _ _ [c] run); [constructor; exact Hc|].
  clear c Hc. induction run as [|d run IH]; [constructor|].
  simpl in Hrun. apply andb_true_iff in Hrun as [Hd Hrun].
  apply (lang_star_app _ [d] run); [constructor; exact Hd | apply IH, Hrun].
Qed.

Lemma lang_star_digits x :
  lang (Star (Cls is_digit)) x -> forallb is_digit x = true.
Proof.
  intros H. remember (Star (Cls is_digit)) as r eqn:Hr.
  induction H as [| | | | | |r0 s1 s2 H1 _ H2 IH2]; try discriminate.
  - reflexivity.
  - injection Hr as ->. apply lang_cls_inv in H1 as (c & -> & Hc).
    simpl. rewrite Hc. apply IH2. reflexivity.
Qed.

Lemma lang_plus_digits_inv x :
  lang (Plus (Cls is_digit)) x -> x <> [] /\ forallb is_digit x = true.
Proof.
  intros H. apply lang_cat_inv in H as (s1 & s2 & -> & H1 & H2).
  apply lang_cls_inv in H1 as (c & -> & Hc). split; [discriminate|].
  simpl. rewrite Hc. apply lang_star_digits, H2.
Qed.

(** What [fractionHere] takes is what [(\.\d+)?] matches, and no digit
    follows it. *)
Lemma fractionHere_spec after :
  (match after with [] => True | c :: _ => is_digit c = false end) ->
  exists suf,
    after = fractionHere after ++ suf
    /\ lang (Opt (Cat (Cls (N.eqb 46)) (Plus (Cls is_digit)))) (fractionHere after)
    /\ match suf with [] => True | c :: _ => is_digit c = false end.
Proof.
  intros Hafter.
  assert (Hnone : fractionHere after = [] ->
            exists suf,
              after = fractionHere after ++ suf
              /\ lang (Opt (Cat (Cls (N.eqb 46)) (Plus (Cls is_digit))))
                      (fractionHere after)
              /\ match suf with [] => True | c :: _ => is_digit c = false end).
  { intros ->. exists after. split; [reflexivity|].
    split; [apply lang_alt_r; constructor | exact Hafter]. }
  destruct after as [|c rest]; [apply Hnone; reflexivity|].
  destruct (N.eq_dec c 46) as [->|Hc];
    [|apply Hnone, fractionHere_not_dot, Hc].
  destruct (digits_split rest) as (Hr & Hfrac & Hrest).
  destruct (fst (digits rest)) as [|f fraction] eqn:Hrun.
  - apply Hnone. rewrite fractionHere_dot, Hrun. reflexivity.
  - rewrite fractionHere_dot, Hrun. exists (snd (digits rest)).
    split; [rewrite Hr at 1; reflexivity|]. split; [|exact Hrest].
    apply lang_alt_l. apply (lang_cat _ _ [46] (f :: fraction)).
    + constructor. reflexivity.
    + apply lang_digits_plus; [discriminate | exact Hfrac].
Qed.

(** What a match at the front is: the pattern matches it, it is the front
    of the string, and no digit follows it. *)
Lemma matchNumberHere_spec s found :
  matchNumberHere s = Some found ->
  exists suf,
    s = found ++ suf
    /\ test numberRe found = true
    /\ match suf with
       | [] => True
       | c :: _ => is_digit c = false
       end.
Proof.
  unfold matchNumberHere. intros H.
  destruct (digits_split s) as (Hs & Hrun & Hafter).
  destruct (digits s) as [whole after]; simpl in *.
  destruct (fractionHere_spec after Hafter) as (suf & Hsuf & Hfrac & Hnext).
  destruct whole as [|d whole]; [discriminate|]. injection H as <-.
  exists suf. split; [|split; [|exact Hnext]].
  - rewrite Hs. rewrite Hsuf at 1. simpl. rewrite app_assoc. reflexivity.
  - apply test_whole. simpl.
    change (d :: whole ++ fractionHere after)
      with ((d :: whole) ++ fractionHere after).
    constructor; [|exact Hfrac].
    apply lang_digits_plus; [discriminate | exact Hrun].
Qed.

Lemma matchNumber_found s : forall found,
  matchNumber s = Some found ->
  exists pre suf,
    s = pre ++ found ++ suf
    /\ has_digit pre = false
    /\ matchNumberHere (found ++ suf) = Some found.
Proof.
  induction s as [|c s IH]; intros found H; [discriminate|].
  rewrite matchNumber_cons in H.
  destruct (matchNumberHere (c :: s)) as [here|] eqn:Hhere.
  - injection H as <-.
    destruct (matchNumberHere_spec _ _ Hhere) as (suf & Hs & _).
    exists [], suf. split; [exact Hs|]. split; [reflexivity|].
    rewrite <- Hs. exact Hhere.
  - destruct (IH found H) as (pre & suf & Hs & Hpre & Hm).
    exists (c :: pre), suf. split; [rewrite Hs; reflexivity|].
    split; [|exact Hm]. unfold has_digit in *. simpl.
    rewrite Hpre, orb_false_r.
    destruct (is_digit c) eqn:Hc; [|reflexivity].
    destruct (matchNumberHere_digit c s Hc) as (found' & Hfound'). congruence.
Qed.

(** The match at the front is the longest the pattern has there. *)
Lemma matchNumberHere_longest s found other rest :
  matchNumberHere s = Some found ->
  test numberRe other = true ->
  s = other ++ rest ->
  (length other <= length found)%nat.
Proof.
  intros Hfound Hother Hs. apply test_whole in Hother. simpl in Hother.
  apply lang_cat_inv in Hother as (x & o & -> & Hx & Ho).
  apply lang_plus_digits_inv in Hx as [Hxne Hx].
  rewrite <- app_assoc in Hs.
  destruct (digits_front x (o ++ rest) Hx) as (more & Hrun).
  rewrite <- Hs in Hrun.
  destruct (digits_split s) as (Hsplit & Hdigits & _).
  unfold matchNumberHere in Hfound.
  destruct (digits s) as [whole after]; simpl in *. subst whole.
  assert (Hrest : more ++ after = o ++ rest).
  { rewrite Hs in Hsplit. rewrite <- app_assoc in Hsplit.
    apply app_inv_head in Hsplit. symmetry. exact Hsplit. }
  assert (Hfound' : found = (x ++ more) ++ fractionHere after).
  { destruct (x ++ more); [discriminate|]. congruence. }
  subst found. clear Hfound. rewrite !length_app.
  apply lang_alt_inv in Ho as [Ho|Ho].
  - apply lang_cat_inv in Ho as (dot & y & -> & Hdot & Hy).
    apply lang_cls_inv in Hdot as (c & -> & Hc). apply N.eqb_eq in Hc. subst c.
    apply lang_plus_digits_inv in Hy as [Hyne Hy].
    destruct more as [|m more].
    + simpl in Hrest. subst after. simpl app.
      rewrite fractionHere_dot.
      destruct (digits_front y rest Hy) as (more2 & ->).
      destruct y as [|y0 y]; [congruence|]. simpl. rewrite !length_app. lia.
    + simpl in Hrest. injection Hrest as -> _.
      rewrite forallb_app in Hdigits. simpl in Hdigits.
      rewrite andb_false_r in Hdigits. discriminate.
  - apply lang_eps_inv in Ho as ->. simpl. lia.
Qed.

End MatchNumber.

Lemma matchNumber_digit s :
  has_digit s = true -> exists found, matchNumber s = Some found.
Proof.
  induction s as [|c s IH]; [discriminate|].
  intros H. rewrite matchNumber_cons.
  destruct (is_digit c) eqn:Hc.
  - destruct (matchNumberHere_digit c s Hc) as (found & ->). eauto.
  - rewrite (matchNumberHere_nondigit c s Hc). apply IH.
    unfold has_digit in *. simpl in H. rewrite Hc in H. exact H.
Qed.

(** X21. The number the list page reads from a size: nothing when the
    string has no digit; otherwise the first place the pattern
    [\d+(\.\d+)?] matches, which is at the first digit, and the longest
    match the pattern has at that place. *)
Theorem matchNumber_first_longest (s : jsstring) :
  match matchNumber s with
  | None => has_digit s = false
  | Some found =>
      exists pre suf,
        s = pre ++ found ++ suf
        /\ has_digit pre = false
        /\ test numberRe found = true
        /\ forall other rest,
             test numberRe other = true ->
             found ++ suf = other ++ rest ->
             (length other <= length found)%nat
  end.
Proof.
  destruct (matchNumber s) as [found|] eqn:Hm.
  - destruct (matchNumber_found s found Hm) as (pre & suf & Hs & Hpre & Hhere).
    destruct (matchNumberHere_spec _ _ Hhere) as (suf' & Hsuf & Htest & _).
    exists pre, suf. repeat (split; [assumption|]).
    intros other rest Hother Heq.
    exact (matchNumberHere_longest _ _ _ _ Hhere Hother Heq).
  - destruct (has_digit s) eqn:Hd; [|reflexivity].
    destruct (matchNumber_digit s Hd) as (found & Hfound). congruence.
Qed.

Section Page.

Variable Number : Type.
Variable parseFloat : jsstring -> Number.
Variable isNaN : Number -> bool.
Variable geq : Number -> Number -> bool.
Variable zero : Number.

#[local] Abbreviation shown :=
  (filteredAndSortedInventories Number parseFloat isNaN geq zero).
#[local] Abbreviation volume := (parseVolume Number parseFloat zero).

Lemma byDate_in_order order a b :
  (byDate order a b <= 0)%Z <-> in_order order a b.
Proof. destruct order; simpl; lia. Qed.

Lemma in_order_trans order a b c :
  in_order order a b -> in_order order b c -> in_order order a c.
Proof. destruct order; simpl; lia. Qed.

Lemma in_order_total order a b : in_order order a b \/ in_order order b a.
Proof. destruct order; simpl; lia. Qed.

Lemma filterMinItems_sublist box l : filterMinItems box l `sublist_of` l.
Proof.
  unfold filterMinItems. destruct box; [reflexivity|].
  destruct (parseInt10 _); [apply sublist_filter | reflexivity].
Qed.

Lemma filterMinVolume_sublist box l :
  filterMinVolume Number parseFloat isNaN geq zero box l `sublist_of` l.
Proof.
  unfold filterMinVolume. destruct box; [reflexivity|].
  destruct (isNaN _); [reflexivity | apply sublist_filter].
Qed.

Lemma shown_perm inventories cells :
  shown inventories cells
  ≡ₚ filterMinVolume Number parseFloat isNaN geq zero (minVolume cells)
       (filterMinItems (minItems cells) inventories).
Proof. apply sort_perm. Qed.

(** X22. The list page reads the same volume from a size whether or not
    [ensureUnits] has been through it. *)
Theorem parseVolume_ensureUnits (size : jsstring) :
  volume (ensureUnits size) = volume size.
Proof.
  unfold parseVolume. rewrite matchNumber_ensureUnits.
  destruct (ensureUnits size) as [|c r] eqn:He; destruct size as [|c' r'];
    try reflexivity.
  apply ensureUnits_empty in He.
  rewrite (matchNumber_no_digit _ (blank_no_digit _ He)). reflexivity.
Qed.

(** X23. The rows of the list page are among the inventories given, none
    more often than given, and they are sorted by date in the order
    chosen. *)
Theorem page_rows_sorted_subset
    (inventories : list SavedInventoryData) (cells : Filters) :
  shown inventories cells ⊆+ inventories
  /\ StronglySorted (in_order (sortOrder cells)) (shown inventories cells).
Proof.
  split.
  - rewrite shown_perm. apply sublist_submseteq.
    etransitivity; [apply filterMinVolume_sublist | apply filterMinItems_sublist].
  - apply (sort_ordered (byDate (sortOrder cells)) (in_order (sortOrder cells))).
    + apply byDate_in_order.
    + apply in_order_trans.
    + apply in_order_total.
Qed.

(** X24. With an integer in the box for the number of items and the box
    for the volume empty, the rows are the inventories with at least that
    many item types. *)
Theorem page_min_items
    (inventories : list SavedInventoryData) (cells : Filters)
    (minItemsNum : Z) (inv : SavedInventoryData) :
  minItems cells <> [] ->
  parseInt10 (minItems cells) = Some minItemsNum ->
  minVolume cells = [] ->
  inv ∈ shown inventories cells
  <-> inv ∈ inventories
      /\ (minItemsNum <= Z.of_nat (length (inventory (saved_data inv))))%Z.
Proof.
  intros Hbox Hint Hvol. rewrite shown_perm, Hvol. simpl.
  unfold filterMinItems. destruct (minItems cells); [congruence|].
  rewrite Hint, list_elem_of_filter. tauto.
Qed.

(** X25. With a number in the box for the volume and the box for the
    number of items empty, the rows are the inventories whose total, as
    [parseVolume] reads it, is at least that number. *)
Theorem page_min_volume
    (inventories : list SavedInventoryData) (cells : Filters)
    (inv : SavedInventoryData) :
  minVolume cells <> [] ->
  isNaN (parseFloat (minVolume cells)) = false ->
  minItems cells = [] ->
  inv ∈ shown inventories cells
  <-> inv ∈ inventories
      /\ geq (volume (totalEstimatedSize (saved_data inv)))
             (parseFloat (minVolume cells)) = true.
Proof.
  intros Hbox Hnum Hitems. rewrite shown_perm, Hitems. simpl.
  unfold filterMinVolume. destruct (minVolume cells); [congruence|].
  rewrite Hnum, list_elem_of_filter. tauto.
Qed.

(** X26. A box that is empty or does not hold a number filters nothing:
    with both boxes so, the rows are the inventories given, each as often
    as given. *)
Theorem page_no_filter
    (inventories : list SavedInventoryData) (cells : Filters) :
  minItems cells = [] \/ parseInt10 (minItems cells) = None ->
  minVolume cells = [] \/ isNaN (parseFloat (minVolume cells)) = true ->
  shown inventories cells ≡ₚ inventories.
Proof.
  intros Hitems Hvol. rewrite shown_perm.
  assert (Hi : filterMinItems (minItems cells) inventories = inventories).
  { unfold filterMinItems. destruct Hitems as [->| ->]; [reflexivity|].
    destruct (minItems cells); reflexivity. }
  rewrite Hi. unfold filterMinVolume.
  destruct Hvol as [->|Hnan]; [reflexivity|].
  destruct (minVolume cells); [reflexivity|]. rewrite Hnan. reflexivity.
Qed.

(** X27. Once the filters are cleared, the page shows the list of the
    store as [getSavedInventories] returns it, row for row. *)
Theorem page_cleared_shows_store_list
    (ls : gmap string StoredText) (cells : Filters) :
  shown (listed ls) (handleClearFilters cells) = listed ls.
Proof.
  unfold filteredAndSortedInventories. simpl.
  apply (sort_ordered_id (byDate newest) (in_order newest)).
  - apply (byDate_in_order newest).
  - apply listed_sorted.
Qed.

End Page.

(** Three inventories of one item type each, and a minimum of one. *)
Lemma page_min_items_witness :
  let cells := mkFilters oldest (str "1") [] in
  let rows :=
    filteredAndSortedInventories Z (fun _ => 0%Z) (fun _ => false) Z.geb 0%Z
      [enriched 1000 1000 sampleInventory] cells in
  enriched 1000 1000 sampleInventory ∈ rows.
Proof.
  intros cells rows.
  apply (page_min_items Z (fun _ => 0%Z) (fun _ => false) Z.geb 0%Z
           [enriched 1000 1000 sampleInventory] cells 1
           (enriched 1000 1000 sampleInventory));
    [discriminate | reflexivity | reflexivity |].
  split; [apply list_elem_of_here | simpl; lia].
Defined.

(** A minimum volume of 40, with integers for numbers. *)
Lemma page_min_volume_witness :
  let readInteger := fun s => default 0%Z (parseInt10 s) in
  let cells := mkFilters newest [] (str "40") in
  let rows :=
    filteredAndSortedInventories Z readInteger (fun _ => false) Z.geb 0%Z
      [enriched 1000 1000 sampleInventory] cells in
  enriched 1000 1000 sampleInventory ∈ rows.
Proof.
  intros readInteger cells rows.
  apply (page_min_volume Z readInteger (fun _ => false) Z.geb 0%Z
           [enriched 1000 1000 sampleInventory] cells
           (enriched 1000 1000 sampleInventory));
    [discriminate | reflexivity | reflexivity |].
  split; [apply list_elem_of_here | reflexivity].
Defined.

(** A minimum number of items that is no number. *)
Lemma page_no_filter_witness :
  let cells := mkFilters newest (str "many") [] in
  filteredAndSortedInventories Z (fun _ => 0%Z) (fun _ => false) Z.geb 0%Z
    [enriched 1000 1000 sampleInventory] cells
  ≡ₚ [enriched 1000 1000 sampleInventory].
Proof.
  intros cells.
  apply (page_no_filter Z (fun _ => 0%Z) (fun _ => false) Z.geb 0%Z
           [enriched 1000 1000 sampleInventory] cells);
    [right; reflexivity | left; reflexivity].
Defined.

(* ===================================================================== *)
(** ** The processing indicator                                           *)
(* ===================================================================== *)

(** X28. The indicator always has a message to show: after any number of
    ticks the step is the number of ticks modulo seven, it is within the
    seven messages, and seven more ticks bring the same message back. *)
Theorem indicator_cycles (ticks : nat) :
  ProcessingIndicator.currentStep ticks = (ticks mod 7)%nat
  /\ (exists text, ProcessingIndicator.message ticks = Some text)
  /\ ProcessingIndicator.message (ticks + 7) = ProcessingIndicator.message ticks.
Proof.
  assert (Hstep : forall n, ProcessingIndicator.currentStep n = (n mod 7)%nat).
  { induction n as [|n IH]; [reflexivity|].
    change (ProcessingIndicator.currentStep (S n))
      with (ProcessingIndicator.nextStep (ProcessingIndicator.currentStep n)).
    rewrite IH. unfold ProcessingIndicator.nextStep.
    change (length ProcessingIndicator.processingSteps) with 7%nat.
    rewrite Nat.Div0.add_mod_idemp_l.
    replace (n + 1)%nat with (S n) by lia. reflexivity. }
  split; [apply Hstep|]. split.
  - unfold ProcessingIndicator.message. rewrite Hstep.
    apply lookup_lt_is_Some.
    change (length ProcessingIndicator.processingSteps) with 7%nat.
    apply Nat.mod_upper_bound. discriminate.
  - unfold ProcessingIndicator.message. rewrite !Hstep. f_equal.
    rewrite <- (Nat.Div0.add_mod_idemp_r ticks 7 7).
    change (7 mod 7)%nat with 0%nat. rewrite Nat.add_0_r. reflexivity.
Qed.
